(** * FlowTEX_I2C: frame decoder, flow conversion and EMA filter

    A shallow embedding of [src/FlowTEX_I2C.ino].

    - C [float] is IEEE-754 binary32, every operation rounded to nearest
      with ties to even, taken from the executable specification
      [SpecFloat] at precision 24, emax 128.
    - Fixed-width integers are [Z] with their wrap-around written out.
    - Objects that [memcpy] writes into are handled through their
      little-endian byte representation (AVR and ARM Arduino targets).
    - The I2C bus is an input: the list of bytes [Wire] delivers.
    - The serial report ([sendMessage], [printFloat]) only reads the
      program's variables; it is left out, as are [setup] and [delay]. *)

From Stdlib Require Import ZArith Lia Bool SpecFloat.
From stdpp Require Import base list.

Local Open Scope Z_scope.

(** ** binary32 arithmetic *)

Definition float : Type := spec_float.

Module F32.

Definition prec : Z := 24.
Definition emax : Z := 128.

Definition add : float -> float -> float := SFadd prec emax.
Definition sub : float -> float -> float := SFsub prec emax.
Definition mul : float -> float -> float := SFmul prec emax.
Definition div : float -> float -> float := SFdiv prec emax.
Definition neg : float -> float := SFopp.

(** [a < b] and [a == b] of C; both are false when an operand is NaN. *)
Definition ltb : float -> float -> bool := SFltb.
Definition eqb : float -> float -> bool := SFeqb.

(** Conversion [(float)n] of an integer. *)
Definition of_int (n : Z) : float := binary_normalize prec emax n 0 false.

(** [m * 2^e] rounded to binary32, for writing constants. *)
Definition of_scaled (m e : Z) : float := binary_normalize prec emax m e false.

Definition zero : float := S754_zero false.
Definition nan : float := S754_nan.

(** The values whose half is again a binary32 number: zeros, infinities,
    NaN, and the normal numbers of magnitude at least [2^-125]. *)
Definition half_exact (x : float) : bool :=
  match x with
  | S754_finite _ m e =>
      (Zpos (digits2_pos m) =? 24) && (-148 <=? e) && (e <=? 104)
  | _ => true
  end.

Definition is_zero (x : float) : bool :=
  match x with S754_zero _ => true | _ => false end.

Definition is_negative (x : float) : bool :=
  match x with
  | S754_zero s | S754_infinity s | S754_finite s _ _ => s
  | S754_nan => false
  end.

End F32.

#[global] Instance float_inhabited : Inhabited float := populate F32.zero.

(** ** DEFINES *)

Definition FLOWTEX_ADDR : Z := 0x20.
Definition MAX_EMA_ORDER : Z := 10.
Definition EMA_DEFAULT_ORDER : Z := 5.
(** [0.5f] *)
Definition EMA_DEFAULT_ALPHA : float := F32.of_scaled 1 (-1).

(** [for (int i = 0; i < n; i++) body] threading the state [s]. *)
Fixpoint for_loop {S : Type} (i : nat) (n : nat) (body : nat -> S -> S) (s : S) : S :=
  match n with
  | O => s
  | Datatypes.S n' => for_loop (Datatypes.S i) n' body (body i s)
  end.

(** ** class cEMAFilter *)

Module cEMAFilter.

Record t := Build {
  filterData : list float;   (* float filterData[MAX_EMA_ORDER] *)
  filtValue : float;
  firstSample : bool;
  order : Z;                 (* uint8_t *)
  alpha : float
}.

Definition set_filterData (this : t) (d : list float) : t :=
  Build d (filtValue this) (firstSample this) (order this) (alpha this).
Definition set_filtValue (this : t) (v : float) : t :=
  Build (filterData this) v (firstSample this) (order this) (alpha this).
Definition set_firstSample (this : t) (b : bool) : t :=
  Build (filterData this) (filtValue this) b (order this) (alpha this).
Definition set_order (this : t) (o : Z) : t :=
  Build (filterData this) (filtValue this) (firstSample this) o (alpha this).
Definition set_alpha (this : t) (a : float) : t :=
  Build (filterData this) (filtValue this) (firstSample this) (order this) a.

(** [cEMAFilter()]: runs on the object's storage [this] and assigns three
    members; [filterData] and [filtValue] keep what the storage holds. *)
Definition ctor (this : t) : t :=
  let this := set_firstSample this true in
  let this := set_order this EMA_DEFAULT_ORDER in
  let this := set_alpha this EMA_DEFAULT_ALPHA in
  this.

(** [config(alpha, order)]: the parameters shadow the members, which are
    reached through [this->]. [order_p] is the value of the [uint8_t]
    parameter. *)
Definition config (this : t) (alpha_p : float) (order_p : Z) : t :=
  if ((0 <? order_p) && (order_p <=? MAX_EMA_ORDER)) &&
     (F32.ltb (F32.of_int 0) alpha_p && F32.ltb alpha_p (F32.of_int 1))
  then
    let this := set_order this order_p in
    let this := set_alpha this alpha_p in
    this
  else this.

(** [cEMAFilter(float alpha, uint8_t order)]: inside the body [order] and
    [alpha] name the parameters, so the two assignments overwrite the
    arguments and not the members. *)
Definition ctor2 (this : t) (alpha_p : float) (order_p : Z) : t :=
  let this := set_firstSample this true in
  let order_p := EMA_DEFAULT_ORDER in
  let alpha_p := EMA_DEFAULT_ALPHA in
  config this alpha_p order_p.

(** [reset(value)]. [order] never exceeds [MAX_EMA_ORDER] (the constructors
    and [config] see to it), so the writes stay inside the array; an update
    outside the list would leave it as it is. *)
Definition reset (this : t) (value : float) : t :=
  set_filterData this
    (for_loop 0 (Z.to_nat (order this))
       (fun i fd => <[i := value]> fd) (filterData this)).

(** [(alpha * out) + ((1 - alpha) * in)] *)
Definition ema_step (a out inp : float) : float :=
  F32.add (F32.mul a out) (F32.mul (F32.sub (F32.of_int 1) a) inp).

(** One pass of the body of the cascade loop: the state is the array and
    the local [value]. *)
Definition filter_body (a : float) (i : nat) (st : list float * float)
  : list float * float :=
  let '(fd, value) := st in
  let fd := <[i := ema_step a (fd !!! i) value]> fd in
  (fd, fd !!! i).

(** [filter(value)]: the new object and the returned value. *)
Definition filter (this : t) (value : float) : t * float :=
  let this :=
    if firstSample this
    then set_firstSample (reset this value) false
    else this in
  let '(fd, value) :=
    for_loop 0 (Z.to_nat (order this)) (filter_body (alpha this))
      (filterData this, value) in
  let this := set_filterData this fd in
  let this := set_filtValue this value in
  (this, filtValue this).

Definition getValue (this : t) : float := filtValue this.

End cEMAFilter.

(** ** Integers and their bytes *)

Definition to_uint8 (x : Z) : Z := x mod 2 ^ 8.
Definition to_uint32 (x : Z) : Z := x mod 2 ^ 32.

(** The value of a [w]-bit two's-complement object holding [z mod 2^w]. *)
Definition signed (w : Z) (z : Z) : Z :=
  let u := z mod 2 ^ w in
  if u <? 2 ^ (w - 1) then u else u - 2 ^ w.

Definition to_int16 : Z -> Z := signed 16.
Definition to_int32 : Z -> Z := signed 32.

(** Little-endian object representation: first byte least significant. *)
Fixpoint le_value (bs : list Z) : Z :=
  match bs with
  | [] => 0
  | b :: bs => b + 2 ^ 8 * le_value bs
  end.

Fixpoint le_bytes (n : nat) (z : Z) : list Z :=
  match n with
  | O => []
  | S n => z mod 2 ^ 8 :: le_bytes n (z / 2 ^ 8)
  end.

Definition sum_bytes (bs : list Z) : Z := foldr Z.add 0 bs.

(** ** tI2CTable / tI2CFrame

    Every member is [uint8_t], so the struct has no padding and the union's
    [I2CBuffer] is the same 32 bytes: a member is a byte offset. *)

Definition sizeof_tI2CTable : Z := 32.

Definition off_flow : nat := 0.
Definition off_flowChks : nat := 3.
Definition off_temp : nat := 4.
Definition off_tempChks : nat := 6.
Definition off_range : nat := 7.
Definition off_rangeChks : nat := 10.
Definition off_serialNumber : nat := 11.
Definition off_serialNumberChks : nat := 21.
Definition off_version : nat := 22.
Definition off_versionChks : nat := 26.
Definition off_fwChks : nat := 27.
Definition off_fwChksChks : nat := 31.

(** The memory a pointer to member [off] sees. *)
Definition member (I2CBuffer : list Z) (off : nat) : list Z := drop off I2CBuffer.

(** [RebuildVarFromBuffer(ptOutVar, ptBuffer, len)]: [memcpy] of [len] bytes
    over the front of the destination object. *)
Definition RebuildVarFromBuffer (ptOutVar : list Z) (ptBuffer : list Z) (len : nat)
  : list Z :=
  take len ptBuffer ++ drop len ptOutVar.

(** The call on an [int32_t], [int16_t] or [uint32_t] variable holding [v]. *)
Definition rebuild_int32 (v : Z) (ptBuffer : list Z) (len : nat) : Z :=
  to_int32 (le_value (RebuildVarFromBuffer (le_bytes 4 v) ptBuffer len)).
Definition rebuild_int16 (v : Z) (ptBuffer : list Z) (len : nat) : Z :=
  to_int16 (le_value (RebuildVarFromBuffer (le_bytes 2 v) ptBuffer len)).
Definition rebuild_uint32 (v : Z) (ptBuffer : list Z) (len : nat) : Z :=
  to_uint32 (le_value (RebuildVarFromBuffer (le_bytes 4 v) ptBuffer len)).

(** ** masterRead

    [wire] is what the bus delivers after [Wire.requestFrom]: one element per
    successful [Wire.read()]. [mem] is the memory [ptBuffer] points into, at
    index [pt]. *)
Fixpoint masterRead_while (wire : list Z) (len : Z) (mem : list Z) (pt : nat)
    (rxLen : Z) : list Z * Z :=
  match wire with
  | [] => (mem, rxLen)
  | b :: wire =>
      let '(mem, pt) :=
        if rxLen <? len then (<[pt := to_uint8 b]> mem, S pt) else (mem, pt) in
      masterRead_while wire len mem pt (to_uint32 (rxLen + 1))
  end.

Definition masterRead (wire : list Z) (address dataAddress : Z) (mem : list Z)
    (ptBuffer : nat) (len : Z) : list Z * bool :=
  let '(mem, rxLen) := masterRead_while wire len mem ptBuffer 0 in
  (mem, len =? rxLen).

(** ** Global variables *)

Record Globals := mkGlobals {
  I2CFrame : list Z;          (* tI2CFrame, through its I2CBuffer view *)
  flow : Z;                   (* int32_t *)
  temp : Z;                   (* int16_t *)
  range : Z;                  (* int32_t *)
  serialNumber : list Z;      (* uint8_t [10] *)
  version : list Z;           (* uint8_t [4] *)
  fwChks : Z;                 (* uint32_t *)
  flowValue : float;
  FlowFilter : cEMAFilter.t;
  loopCounter : Z;            (* uint32_t *)
  comError : Z;               (* uint32_t *)
  error : Z;                  (* uint32_t *)
  success : Z                 (* uint32_t *)
}.

(** ** loop *)

(** "Calc frame checksum": the [uint8_t] accumulator over the 32 bytes. *)
Definition frame_chks (I2CBuffer : list Z) : Z :=
  for_loop 0 (Z.to_nat sizeof_tI2CTable)
    (fun i chks => to_uint8 (chks + I2CBuffer !!! i)) 0.

(** The decoded variables after the six [RebuildVarFromBuffer] calls, each
    on a variable that was cleared first. *)
Record Decoded := mkDecoded {
  d_flow : Z;
  d_temp : Z;
  d_range : Z;
  d_serialNumber : list Z;
  d_version : list Z;
  d_fwChks : Z
}.

Definition decode_fields (I2CBuffer : list Z) : Decoded :=
  let flow := 0 in
  let temp := 0 in
  let range := 0 in
  let serialNumber := replicate 10 0 in
  let version := replicate 4 0 in
  let fwChks := 0 in
  let flow := rebuild_int32 flow (member I2CBuffer off_flow) 3 in
  let temp := rebuild_int16 temp (member I2CBuffer off_temp) 2 in
  let range := rebuild_int32 range (member I2CBuffer off_range) 3 in
  let serialNumber :=
    RebuildVarFromBuffer serialNumber (member I2CBuffer off_serialNumber) 10 in
  let version := RebuildVarFromBuffer version (member I2CBuffer off_version) 4 in
  let fwChks := rebuild_uint32 fwChks (member I2CBuffer off_fwChks) 4 in
  mkDecoded flow temp range serialNumber version fwChks.

(** "Positive and Negatige flow process": the new [flow] and [flowValue]. *)
Definition flow_process (flow range : Z) : Z * float :=
  if negb (Z.land flow 0x800000 =? 0) then
    let flow := to_int32 (Z.lnot flow + 1) in
    let flow := Z.land flow 0x7FFFFF in
    (flow,
     F32.div (F32.neg (F32.mul (F32.of_int flow) (F32.of_int range)))
             (F32.of_int 0x7FFFFF))
  else
    (flow,
     F32.div (F32.mul (F32.of_int flow) (F32.of_int range))
             (F32.of_int 0x7FFFFF)).

(** The decoder inside the poll cycle: [if (chks != 0) ... else ...], the
    fields being rebuilt only in the branch where the checksum is zero. *)
Inductive DecodeResult :=
| ChecksumError
| Frame (d : Decoded).

Definition decode (b : list Z) : DecodeResult :=
  if negb (frame_chks b =? 0) then ChecksumError else Frame (decode_fields b).

(** One run of [loop()], [wire] being what the sensor sends back. *)
Definition loop (g : Globals) (wire : list Z) : Globals :=
  let '(buf, ok) :=
    masterRead wire FLOWTEX_ADDR 0 (I2CFrame g) 0 sizeof_tI2CTable in
  let g :=
    if ok then
      match decode buf with
      | ChecksumError =>
          mkGlobals buf (flow g) (temp g) (range g) (serialNumber g) (version g)
            (fwChks g) (flowValue g) (FlowFilter g) (loopCounter g) (comError g)
            (to_uint32 (error g + 1)) (success g)
      | Frame d =>
          let '(flow', flowValue') := flow_process (d_flow d) (d_range d) in
          mkGlobals buf flow' (d_temp d) (d_range d) (d_serialNumber d)
            (d_version d) (d_fwChks d) flowValue'
            (fst (cEMAFilter.filter (FlowFilter g) flowValue'))
            (loopCounter g) (comError g) (error g) (to_uint32 (success g + 1))
      end
    else
      mkGlobals buf (flow g) (temp g) (range g) (serialNumber g) (version g)
        (fwChks g) (flowValue g) (FlowFilter g) (loopCounter g)
        (to_uint32 (comError g + 1)) (error g) (success g) in
  mkGlobals (I2CFrame g) (flow g) (temp g) (range g) (serialNumber g)
    (version g) (fwChks g) (flowValue g) (FlowFilter g)
    (to_uint32 (loopCounter g + 1)) (comError g) (error g) (success g).

(** ** Sample data *)

(** An object in static storage before its constructor runs: all zero. *)
Definition static_storage : cEMAFilter.t :=
  cEMAFilter.Build (replicate 10 F32.zero) F32.zero false 0 F32.zero.

(** [0.1f], [1.5f], [3.0f], [7.0f], [8.0f] *)
Definition f32_0_1 : float := S754_finite false 13421773 (-27).
Definition f32_1_5 : float := F32.of_scaled 3 (-1).
Definition f32_3 : float := F32.of_int 3.
Definition f32_7 : float := F32.of_int 7.
Definition f32_8 : float := F32.of_int 8.

(** A filter that has processed one sample. *)
Definition running_filter : cEMAFilter.t :=
  fst (cEMAFilter.filter (cEMAFilter.ctor static_storage) f32_3).

Definition is_byte (x : Z) : Prop := 0 <= x < 2 ^ 8.

(** The program's variables at start-up: static storage is zeroed and
    [FlowFilter] is built by the default constructor. *)
Definition startup : Globals :=
  mkGlobals (replicate 32 0) 0 0 0 (replicate 10 0) (replicate 4 0) 0 F32.zero
    (cEMAFilter.ctor static_storage) 0 0 0 0.

(** Flow bytes [00 00 01], range bytes [E8 03 00], every field followed by
    the byte that makes its own sum zero. *)
Definition frame_flow_010000 : list Z :=
  [0; 0; 1; 0xFF; 0; 0; 0; 0xE8; 0x03; 0; 0x15] ++ replicate 21 0.

(** A frame whose bytes sum to zero although the flow and temperature
    fields do not sum to zero with their own checksum bytes. *)
Definition frame_fields_off : list Z :=
  [1; 0; 0; 0; 0; 0; 0xFF] ++ replicate 25 0.

(** ** The main program *)

(** The guard of the report block at the head of [loop()]:
    [if (loopCounter > 50)]. *)
Definition report_due (g : Globals) : bool := 50 <? loopCounter g.

(** [loop()] called again and again, each cycle with what the bus delivers
    in it. *)
Definition run (g : Globals) (wires : list (list Z)) : Globals :=
  foldl loop g wires.

(** [filter] called on one sample after the other, as the poll cycles do:
    the final object and the values returned, in order. *)
Fixpoint filter_samples (this : cEMAFilter.t) (values : list float)
  : cEMAFilter.t * list float :=
  match values with
  | [] => (this, [])
  | v :: values =>
      let '(this, out) := cEMAFilter.filter this v in
      let '(this, outs) := filter_samples this values in
      (this, out :: outs)
  end.

(** ** printFloat

    The output buffer is a list of character codes. An access outside it
    is reported as [None]: the C code has no defined behaviour there.
    [int] is taken as 32 bits wide; for [maxLen] below [2^15] a 16-bit
    [int] gives the same values. *)

Definition chr_space : Z := 0x20.
Definition chr_comma : Z := 0x2C.
Definition chr_minus : Z := 0x2D.
Definition chr_0 : Z := 0x30.

Definition buf_store (buf : list Z) (i : Z) (c : Z) : option (list Z) :=
  if (0 <=? i) && (i <? Z.of_nat (length buf))
  then Some (<[Z.to_nat i := c]> buf)
  else None.

Definition buf_load (buf : list Z) (i : Z) : option Z :=
  if 0 <=? i then buf !! Z.to_nat i else None.

(** [for (int i = maxLen-1, j = 0; i >= 0; i--, j++)]: [scan] is [i + 1],
    so the pass is at index [scan - 1]. *)
Fixpoint print_digits (scan : nat) (j : Z) (dp : float) (intValue : Z)
    (buf : list Z) : option (list Z) :=
  match scan with
  | O => Some buf
  | S i =>
      if F32.eqb (F32.of_int j) dp && negb (F32.eqb dp (F32.of_int 0)) then
        match buf_store buf (Z.of_nat i) chr_comma with
        | Some buf => print_digits i (j + 1) dp intValue buf
        | None => None
        end
      else
        match buf_store buf (Z.of_nat i) (Z.rem intValue 10 + 0x30) with
        | Some buf => print_digits i (j + 1) dp (Z.quot intValue 10) buf
        | None => None
        end
  end.

(** [for (int i = 0; i < maxLen-1; i++)] with its two [break]s: [iters] is
    the number of values of [i] left below the bound. *)
Fixpoint blank_zeros (iters : nat) (i : Z) (buf : list Z) : option (list Z) :=
  match iters with
  | O => Some buf
  | S iters =>
      match buf_load buf (i + 1) with
      | None => None
      | Some c1 =>
          if (c1 =? chr_comma) || (c1 =? 0) then Some buf
          else
            match buf_load buf i with
            | None => None
            | Some c0 =>
                if c0 =? chr_0 then
                  match buf_store buf i chr_space with
                  | Some buf => blank_zeros iters (i + 1) buf
                  | None => None
                  end
                else Some buf
            end
      end
  end.

(** [while (outputBuffer[idx+1] == ' ') idx++]: [rest] is the buffer from
    index [idx + 1] on; running off its end is an access outside the
    buffer. *)
Fixpoint sign_index (rest : list Z) (idx : Z) : option Z :=
  match rest with
  | [] => None
  | c :: rest => if c =? chr_space then sign_index rest (idx + 1) else Some idx
  end.

Section PrintFloat.

(** [(int32_t)((value * pow(10, dp)) + 0.5)]: computed in [double] with the
    C library's [pow]; left open. *)
Variable scaled_int : float -> float -> Z.

Definition printFloat (outputBuffer : list Z) (value dp : float) (maxLen : Z)
  : option (list Z) :=
  let bNegative := F32.ltb value (F32.of_int 0) in
  let value := if bNegative then F32.neg value else value in
  let intValue := scaled_int value dp in
  match buf_store outputBuffer maxLen 0 with
  | None => None
  | Some buf =>
      match print_digits (Z.to_nat (to_int32 (to_uint32 (maxLen - 1)) + 1))
              0 dp intValue buf with
      | None => None
      | Some buf =>
          match blank_zeros (Z.to_nat (to_uint32 (maxLen - 1))) 0 buf with
          | None => None
          | Some buf =>
              if bNegative then
                match sign_index (drop 1 buf) 0 with
                | None => None
                | Some idx => buf_store buf idx chr_minus
                end
              else Some buf
          end
      end
  end.

End PrintFloat.

(** *** The text [printFloat] is expected to produce

    For a buffer of width [m], [d] decimal places and the scaled magnitude
    [n], position [i] is [j = m - 1 - i] places from the right. *)

(** The decimal point sits [d] places from the right, when [d] is not 0. *)
Definition is_point (d j : Z) : bool := negb (d =? 0) && (j =? d).

(** The power of ten shown at place [j]: the point takes one place. *)
Definition digit_exp (d j : Z) : Z :=
  if negb (d =? 0) && (d <? j) then j - 1 else j.

(** Places where a leading zero is replaced by a blank: not the last one,
    and, when there is a point, not the digit in front of it nor anything
    after it. *)
Definition may_blank (m d j : Z) : bool :=
  (1 <=? j) && ((d =? 0) || (m <=? d) || (d + 1 <? j)).

Definition plain_chr (d n j : Z) : Z :=
  if is_point d j then chr_comma
  else chr_0 + (n / 10 ^ digit_exp d j) mod 10.

Definition rendered_chr (m d n i : Z) : Z :=
  let j := m - 1 - i in
  if is_point d j then chr_comma
  else if may_blank m d j && (n <? 10 ^ digit_exp d j) then chr_space
  else chr_0 + (n / 10 ^ digit_exp d j) mod 10.

(** The number of digit places of the field. *)
Definition digit_places (m d : Z) : Z :=
  if (1 <=? d) && (d <? m) then m - 1 else m.

(** The filter objects a program can get: built by one of the constructors
    on storage with room for the ten stages, then used through [config],
    [reset] and [filter]. *)
Inductive reachable : cEMAFilter.t -> Prop :=
| reach_ctor (mem : cEMAFilter.t) :
    length (cEMAFilter.filterData mem) = Z.to_nat MAX_EMA_ORDER ->
    reachable (cEMAFilter.ctor mem)
| reach_ctor2 (mem : cEMAFilter.t) (a : float) (o : Z) :
    length (cEMAFilter.filterData mem) = Z.to_nat MAX_EMA_ORDER ->
    reachable (cEMAFilter.ctor2 mem a o)
| reach_config (this : cEMAFilter.t) (a : float) (o : Z) :
    reachable this -> reachable (cEMAFilter.config this a o)
| reach_reset (this : cEMAFilter.t) (v : float) :
    reachable this -> reachable (cEMAFilter.reset this v)
| reach_filter (this : cEMAFilter.t) (v : float) :
    reachable this -> reachable (fst (cEMAFilter.filter this v)).

(** * Properties *)

(** ** Loops over arrays *)

Lemma for_loop_fill {A} (v : A) (n : nat) :
  forall (i : nat) (fd : list A),
    (i + n <= length fd)%nat ->
    for_loop i n (fun i fd => <[i := v]> fd) fd
    = take i fd ++ replicate n v ++ drop (i + n) fd.
Proof.
  induction n as [|n IH]; intros i fd Hlen; simpl.
  - rewrite Nat.add_0_r. by rewrite take_drop.
  - rewrite IH by (rewrite length_insert; lia).
    assert (Hi : (i < length fd)%nat) by lia.
    destruct (lookup_lt_is_Some_2 fd i Hi) as [x Hx].
    rewrite (take_S_r (<[i:=v]> fd) i v)
      by (apply list_lookup_insert_eq; lia).
    rewrite take_insert_ge by lia.
    rewrite drop_insert_lt by lia.
    rewrite <- app_assoc. simpl.
    by replace (S (i + n)) with (i + S n)%nat by lia.
Qed.

(** ** binary32 facts *)

(** A positive number with [d] binary digits is at least [2^(d-1)]. *)
Lemma digits2_pos_lower (p : positive) :
  2 ^ (Zpos (digits2_pos p) - 1) <= Zpos p.
Proof.
  assert (Hstep : forall q : positive,
             2 ^ (Zpos (Pos.succ q) - 1) = 2 * 2 ^ (Zpos q - 1)).
  { intros q. rewrite Pos2Z.inj_succ.
    replace (Z.succ (Zpos q) - 1) with (Z.succ (Zpos q - 1)) by lia.
    apply Z.pow_succ_r. lia. }
  induction p as [p IH|p IH|]; simpl digits2_pos; rewrite ?Hstep; [lia|lia|done].
Qed.

Lemma digits2_pos_iter (p k : positive) :
  digits2_pos (Pos.iter xO p k) = (digits2_pos p + k)%positive.
Proof.
  induction k as [|k IH] using Pos.peano_ind.
  - simpl. lia.
  - rewrite Pos.iter_succ. simpl. rewrite IH. lia.
Qed.

Lemma fexp_normal (e : Z) :
  -149 <= e -> fexp F32.prec F32.emax (24 + e) = e.
Proof. intros He. unfold fexp, emin, F32.prec, F32.emax. lia. Qed.

(** A 24-digit mantissa in the exponent range is already a binary32
    number: rounding returns it. *)
Lemma round_aux_exact (s : bool) (m : positive) (e : Z) :
  digits2_pos m = 24%positive -> -149 <= e <= 104 ->
  binary_round_aux F32.prec F32.emax s (Zpos m) e loc_Exact = S754_finite s m e.
Proof.
  intros Hm He. unfold binary_round_aux, shr_fexp.
  simpl Zdigits2. rewrite Hm, fexp_normal, Z.sub_diag by lia.
  simpl. rewrite Hm, fexp_normal, Z.sub_diag by lia.
  simpl. unfold F32.emax, F32.prec.
  by replace (e <=? 128 - 24) with true by (symmetry; apply Z.leb_le; lia).
Qed.

(** Integers below [2^24] convert to finite numbers. *)
Lemma of_int_pos_finite (p : positive) :
  Zpos p < 2 ^ 24 ->
  exists m e, F32.of_int (Zpos p) = S754_finite false m e.
Proof.
  intros Hp.
  pose proof (digits2_pos_lower p) as Hd.
  assert (Hd24 : Zpos (digits2_pos p) <= 24).
  { destruct (Z.le_gt_cases (Zpos (digits2_pos p)) 24) as [|Hgt]; [done|].
    assert (2 ^ 24 <= 2 ^ (Zpos (digits2_pos p) - 1))
      by (apply Z.pow_le_mono_r; lia).
    lia. }
  unfold F32.of_int, binary_normalize, binary_round.
  replace (fexp F32.prec F32.emax (Zpos (digits2_pos p) + 0))
    with (Zpos (digits2_pos p) - 24)
    by (unfold fexp, emin, F32.prec, F32.emax; lia).
  unfold shl_align.
  destruct (Zpos (digits2_pos p) - 24 - 0) as [|q|q] eqn:E; try lia.
  - rewrite round_aux_exact by lia. eauto.
  - rewrite round_aux_exact; [eauto| |lia].
    rewrite digits2_pos_iter. lia.
Qed.

Lemma of_int_small (z : Z) :
  0 <= z < 2 ^ 24 ->
  F32.of_int z = S754_zero false \/ exists m e, F32.of_int z = S754_finite false m e.
Proof.
  intros Hz. destruct z as [|p|p]; [by left| |lia].
  right. apply of_int_pos_finite. lia.
Qed.

(** Shifting out [k] zero bits is exact. *)
Lemma iter_pos_shr_1 (k : positive) :
  forall (r : shr_record), SpecFloat.iter_pos shr_1 k r = Pos.iter shr_1 r k.
Proof.
  induction k as [k IH|k IH|]; intros r; simpl.
  - rewrite !IH. by rewrite !Pos.iter_swap.
  - by rewrite !IH.
  - done.
Qed.

Lemma shr_iter_xO (m : positive) (k : positive) :
  Pos.iter shr_1 (Build_shr_record (Zpos (Pos.iter xO m k)) false false) k
  = Build_shr_record (Zpos m) false false.
Proof.
  induction k as [|k IH] using Pos.peano_ind; [done|].
  rewrite (Pos.iter_succ k _ xO), (Pos.iter_succ k _ shr_1), <- Pos.iter_swap.
  exact IH.
Qed.

Lemma round_aux_shift (s : bool) (m k : positive) (e : Z) :
  digits2_pos m = 24%positive -> -149 <= e + Zpos k <= 104 ->
  binary_round_aux F32.prec F32.emax s (Zpos (Pos.iter xO m k)) e loc_Exact
  = S754_finite s m (e + Zpos k).
Proof.
  intros Hm He. unfold binary_round_aux, shr_fexp.
  simpl Zdigits2. rewrite digits2_pos_iter, Hm.
  replace (fexp F32.prec F32.emax (Zpos (24 + k) + e) - e) with (Zpos k)
    by (unfold fexp, emin, F32.prec, F32.emax; lia).
  unfold shr. rewrite iter_pos_shr_1.
  simpl shr_record_of_loc. rewrite shr_iter_xO.
  simpl. rewrite Hm.
  replace (fexp F32.prec F32.emax (24 + (e + Zpos k)) - (e + Zpos k)) with 0
    by (rewrite fexp_normal; lia).
  simpl. unfold F32.emax, F32.prec.
  by replace (e + Zpos k <=? 128 - 24) with true by (symmetry; apply Z.leb_le; lia).
Qed.

(** Halving a normal number above the smallest binade, and adding a number
    to itself below the largest, only move the exponent. *)
Lemma mul_half (s : bool) (m : positive) (e : Z) :
  digits2_pos m = 24%positive -> -148 <= e <= 104 ->
  F32.mul EMA_DEFAULT_ALPHA (S754_finite s m e) = S754_finite s m (e - 1).
Proof.
  intros Hm He.
  change EMA_DEFAULT_ALPHA with (S754_finite false 8388608 (-24)).
  unfold F32.mul, SFmul.
  change (8388608 * m)%positive with (Pos.iter xO m 23).
  rewrite round_aux_shift by lia.
  simpl xorb. f_equal. lia.
Qed.

Lemma add_self (s : bool) (m : positive) (e : Z) :
  digits2_pos m = 24%positive -> -149 <= e + 1 <= 104 ->
  F32.add (S754_finite s m e) (S754_finite s m e) = S754_finite s m (e + 1).
Proof.
  intros Hm He. unfold F32.add, SFadd.
  rewrite Z.min_id. unfold shl_align at 1 2. rewrite Z.sub_diag. simpl fst.
  assert (Hr : binary_round F32.prec F32.emax s (m~0) e = S754_finite s m (e + 1)).
  { unfold binary_round. simpl digits2_pos. rewrite Hm.
    replace (fexp F32.prec F32.emax (Zpos (Pos.succ 24) + e)) with (e + 1)
      by (unfold fexp, emin, F32.prec, F32.emax; lia).
    unfold shl_align. replace (e + 1 - e) with 1 by lia.
    change (m~0)%positive with (Pos.iter xO m 1).
    by rewrite round_aux_shift by lia. }
  destruct s; simpl cond_Zopp.
  - replace (- Zpos m + - Zpos m) with (Zneg m~0) by lia. exact Hr.
  - replace (Zpos m + Zpos m) with (Zpos m~0) by lia. exact Hr.
Qed.

(** With [alpha = 0.5] the blend of a value with itself is that value. *)
Lemma ema_step_half (v : float) :
  F32.half_exact v = true -> cEMAFilter.ema_step EMA_DEFAULT_ALPHA v v = v.
Proof.
  intros Hv. unfold cEMAFilter.ema_step.
  change (F32.sub (F32.of_int 1) EMA_DEFAULT_ALPHA) with EMA_DEFAULT_ALPHA.
  destruct v as [[]|[]| |s m e]; try reflexivity.
  unfold F32.half_exact in Hv.
  apply andb_prop in Hv as [Hv He2]. apply andb_prop in Hv as [Hd He1].
  apply Z.eqb_eq in Hd. apply Z.leb_le in He1, He2.
  assert (Hm : digits2_pos m = 24%positive) by lia.
  rewrite mul_half by lia. rewrite add_self by lia. f_equal. lia.
Qed.

(** ** cEMAFilter *)

Section EMA.

Import cEMAFilter.

Lemma reset_spec (this : t) (v : float) :
  (Z.to_nat (order this) <= length (filterData this))%nat ->
  reset this v
  = Build (replicate (Z.to_nat (order this)) v
             ++ drop (Z.to_nat (order this)) (filterData this))
          (filtValue this) (firstSample this) (order this) (alpha this).
Proof.
  intros Hlen. unfold reset, set_filterData. f_equal.
  by rewrite for_loop_fill by (simpl; lia).
Qed.

(** A cascade whose stages and input all hold a value the blend maps to
    itself changes nothing. *)
Lemma cascade_fixed (a v : float) (n : nat) :
  ema_step a v v = v ->
  forall (i : nat) (fd : list float),
    (forall j, (i <= j < i + n)%nat -> fd !! j = Some v) ->
    for_loop i n (filter_body a) (fd, v) = (fd, v).
Proof.
  intros Hfix. induction n as [|n IH]; intros i fd Hfd; simpl; [done|].
  assert (Hi : fd !! i = Some v) by (apply Hfd; lia).
  rewrite (list_lookup_total_correct _ _ _ Hi), Hfix.
  rewrite (list_insert_id _ _ _ Hi).
  rewrite (list_lookup_total_correct _ _ _ Hi).
  apply IH. intros j Hj. apply Hfd. lia.
Qed.

Lemma lookup_seeded (fd : list float) (v : float) (n j : nat) :
  (j < n)%nat -> (replicate n v ++ drop n fd) !! j = Some v.
Proof.
  intros Hj. rewrite lookup_app_l by (rewrite length_replicate; lia).
  by apply lookup_replicate_2.
Qed.

Lemma config_accept (this : t) (a : float) (o : Z) :
  F32.ltb (F32.of_int 0) a = true -> F32.ltb a (F32.of_int 1) = true ->
  1 <= o <= MAX_EMA_ORDER ->
  config this a o
  = Build (filterData this) (filtValue this) (firstSample this) o a.
Proof.
  intros H0 H1 Ho. unfold config. rewrite H0, H1.
  replace (0 <? o) with true by (symmetry; apply Z.ltb_lt; lia).
  replace (o <=? MAX_EMA_ORDER) with true by (symmetry; apply Z.leb_le; lia).
  reflexivity.
Qed.

Lemma config_reject (this : t) (a : float) (o : Z) :
  ~ (F32.ltb (F32.of_int 0) a = true /\ F32.ltb a (F32.of_int 1) = true /\
     1 <= o <= MAX_EMA_ORDER) ->
  config this a o = this.
Proof.
  intros H. unfold config.
  destruct (0 <? o) eqn:E1; [|done].
  destruct (o <=? MAX_EMA_ORDER) eqn:E2; [|done].
  destruct (F32.ltb (F32.of_int 0) a) eqn:E3; [|done].
  destruct (F32.ltb a (F32.of_int 1)) eqn:E4; [|done].
  exfalso. apply H. repeat split; try done.
  - apply Z.ltb_lt in E1. lia.
  - by apply Z.leb_le.
Qed.

End EMA.

Section EMA_claims.

Import cEMAFilter.

Lemma cascade_below (a : float) (n : nat) :
  forall (i : nat) (fd : list float) (x : float) (j : nat),
    (j < i)%nat ->
    fst (for_loop i n (filter_body a) (fd, x)) !! j = fd !! j.
Proof.
  induction n as [|n IH]; intros i fd x j Hj; simpl; [done|].
  rewrite IH by lia. apply list_lookup_insert_ne. lia.
Qed.

Lemma reset_reset (this : t) (p v : float) :
  (Z.to_nat (order this) <= length (filterData this))%nat ->
  reset (reset this p) v = reset this v.
Proof.
  intros Hlen.
  rewrite (reset_spec (reset this p)), !(reset_spec this) by
    (rewrite ?reset_spec by done; simpl;
     rewrite ?length_app, ?length_replicate, ?length_drop; lia).
  simpl. do 2 f_equal.
  rewrite drop_app_length'; [done|]. by rewrite length_replicate.
Qed.

(** The first call on a freshly configured object, when the blend maps
    the input to itself. *)
Lemma first_filter_seeded (mem : t) (a : float) (o : Z) (v : float) :
  length (filterData mem) = Z.to_nat MAX_EMA_ORDER ->
  F32.ltb (F32.of_int 0) a = true -> F32.ltb a (F32.of_int 1) = true ->
  1 <= o <= MAX_EMA_ORDER ->
  ema_step a v v = v ->
  filter (config (ctor mem) a o) v
  = (Build (replicate (Z.to_nat o) v ++ drop (Z.to_nat o) (filterData mem))
           v false o a, v).
Proof.
  intros Hlen H0 H1 Ho Hfix.
  rewrite config_accept by done.
  unfold filter, ctor. simpl firstSample. cbv iota.
  rewrite reset_spec by (simpl; unfold MAX_EMA_ORDER in *; lia).
  simpl.
  rewrite cascade_fixed; [done|done|].
  intros j Hj. apply lookup_seeded. lia.
Qed.

(** C5 (amended): after construction and any accepted configuration, the
    first [filter(v)] seeds every one of the [order] stages with [v] and
    returns [v], provided the binary32 blend [alpha*v + (1-alpha)*v]
    evaluates to [v]. With [alpha = 0.5], the default, it does so for every
    [v] that is a zero, an infinity, NaN or a normal number of magnitude at
    least [2^-125], whatever the order. *)
Theorem first_filter_returns_seed
    (mem : t) (a : float) (o : Z) (v : float) :
  length (filterData mem) = Z.to_nat MAX_EMA_ORDER ->
  1 <= o <= MAX_EMA_ORDER ->
  (F32.ltb (F32.of_int 0) a = true -> F32.ltb a (F32.of_int 1) = true ->
   ema_step a v v = v ->
   snd (filter (config (ctor mem) a o) v) = v /\
   getValue (fst (filter (config (ctor mem) a o) v)) = v /\
   firstSample (fst (filter (config (ctor mem) a o) v)) = false /\
   take (Z.to_nat o) (filterData (fst (filter (config (ctor mem) a o) v)))
   = replicate (Z.to_nat o) v) /\
  (F32.half_exact v = true ->
   snd (filter (config (ctor mem) EMA_DEFAULT_ALPHA o) v) = v /\
   getValue (fst (filter (config (ctor mem) EMA_DEFAULT_ALPHA o) v)) = v /\
   take (Z.to_nat o)
     (filterData (fst (filter (config (ctor mem) EMA_DEFAULT_ALPHA o) v)))
   = replicate (Z.to_nat o) v).
Proof.
  intros Hlen Ho. split.
  - intros H0 H1 Hfix.
    rewrite (first_filter_seeded mem a o v) by done.
    simpl. repeat split.
    rewrite take_app_length'; [done|]. by rewrite length_replicate.
  - intros Hv.
    rewrite (first_filter_seeded mem EMA_DEFAULT_ALPHA o v)
      by first [ done | by apply ema_step_half ].
    simpl. repeat split.
    rewrite take_app_length'; [done|]. by rewrite length_replicate.
Qed.

Lemma first_filter_returns_seed_witness :
  snd (filter (config (ctor static_storage) EMA_DEFAULT_ALPHA 5) f32_3) = f32_3.
Proof.
  apply (first_filter_returns_seed static_storage EMA_DEFAULT_ALPHA 5 f32_3);
    first [ reflexivity | unfold MAX_EMA_ORDER; lia ].
Defined.

(** C5 as stated fails: with [alpha = 0.1f] the first [filter(7.0f)] returns
    [6.9999995f] for order 1 and [6.9999986f] for the default order 5. The
    blend rounds four times, never on a tie: [0.1f * 7] from
    [11744051.375 * 2^-24] to [11744051 * 2^-24], [1 - 0.1f] from
    [15099494.375 * 2^-24] to [15099494 * 2^-24], its product with 7 from
    [13212057.25 * 2^-21] to [13212057 * 2^-21], and the sum from
    [14680063.375 * 2^-21] to [14680063 * 2^-21], one unit below
    [7 = 14680064 * 2^-21]. *)
Lemma first_filter_inexact_blend :
  F32.ltb (F32.of_int 0) f32_0_1 = true /\
  F32.ltb f32_0_1 (F32.of_int 1) = true /\
  f32_7 = S754_finite false 14680064 (-21) /\
  F32.mul f32_0_1 f32_7 = S754_finite false 11744051 (-24) /\
  F32.sub (F32.of_int 1) f32_0_1 = S754_finite false 15099494 (-24) /\
  F32.mul (F32.sub (F32.of_int 1) f32_0_1) f32_7
  = S754_finite false 13212057 (-21) /\
  ema_step f32_0_1 f32_7 f32_7 = S754_finite false 14680063 (-21) /\
  snd (filter (config (ctor static_storage) f32_0_1 1) f32_7)
  = S754_finite false 14680063 (-21) /\
  snd (filter (config (ctor static_storage) f32_0_1 5) f32_7)
  = S754_finite false 14680061 (-21) /\
  F32.eqb (snd (filter (config (ctor static_storage) f32_0_1 1) f32_7)) f32_7
  = false /\
  F32.eqb (snd (filter (config (ctor static_storage) f32_0_1 5) f32_7)) f32_7
  = false.
Proof. repeat split; vm_compute; reflexivity. Qed.

(** Below the normal range the default [alpha = 0.5] loses the input too:
    half of the smallest subnormal rounds to zero. *)
Lemma first_filter_subnormal :
  F32.half_exact (S754_finite false 1 (-149)) = false /\
  snd (filter (ctor static_storage) (S754_finite false 1 (-149))) = F32.zero.
Proof. split; vm_compute; reflexivity. Qed.

(** C6: [config] stores its arguments exactly when [0 < alpha < 1] and
    [1 <= order <= MAX_EMA_ORDER]; otherwise it returns the object
    unchanged, as for [alpha = 1.5], NaN or [order = 0]. *)
Theorem config_updates_iff_in_range (this : t) (a : float) (o : Z) :
  (F32.ltb (F32.of_int 0) a = true /\ F32.ltb a (F32.of_int 1) = true /\
   1 <= o <= MAX_EMA_ORDER ->
   config this a o
   = Build (filterData this) (filtValue this) (firstSample this) o a) /\
  (~ (F32.ltb (F32.of_int 0) a = true /\ F32.ltb a (F32.of_int 1) = true /\
      1 <= o <= MAX_EMA_ORDER) ->
   config this a o = this) /\
  config this f32_1_5 o = this /\
  config this F32.nan o = this /\
  config this a 0 = this /\
  config this a (MAX_EMA_ORDER + 1) = this /\
  config (config this a o) f32_1_5 0 = config this a o.
Proof.
  split; [|split].
  - intros (H0 & H1 & Ho). by apply config_accept.
  - apply config_reject.
  - repeat split; apply config_reject; vm_compute; intros (H0 & H1 & Ho);
      first [ discriminate H1 | discriminate H0
            | destruct Ho as [Ho1 Ho2]; first [ by apply Ho1 | by apply Ho2 ] ].
Qed.

(** C7 (amended): [reset(p)] writes [p] into the first [order] stages and
    changes nothing else, [firstSample] included. When no sample has been
    filtered yet the next [filter(v)] seeds from [v] and the preset is
    lost; once a sample has been filtered, the next [filter(v)] blends [v]
    with the preset [p]. *)
Theorem reset_sets_stages_only (this : t) (p v : float) :
  length (filterData this) = Z.to_nat MAX_EMA_ORDER ->
  1 <= order this <= MAX_EMA_ORDER ->
  reset this p
  = Build (replicate (Z.to_nat (order this)) p
             ++ drop (Z.to_nat (order this)) (filterData this))
          (filtValue this) (firstSample this) (order this) (alpha this) /\
  (forall i, (i < Z.to_nat (order this))%nat ->
             filterData (reset this p) !! i = Some p) /\
  firstSample (reset this p) = firstSample this /\
  (firstSample this = true -> filter (reset this p) v = filter this v) /\
  (firstSample this = false ->
   filterData (fst (filter (reset this p) v)) !! 0%nat
   = Some (ema_step (alpha this) p v)).
Proof.
  intros Hlen Ho.
  assert (Hn : (Z.to_nat (order this) <= length (filterData this))%nat)
    by (unfold MAX_EMA_ORDER in *; lia).
  pose proof (reset_spec this p Hn) as Hr.
  split; [done|]. split; [|split; [|split]].
  - intros i Hi. rewrite Hr. simpl. by apply lookup_seeded.
  - by rewrite Hr.
  - intros Hfs. unfold filter.
    replace (firstSample (reset this p)) with true by (by rewrite Hr).
    rewrite Hfs. by rewrite reset_reset.
  - intros Hfs. unfold filter.
    replace (firstSample (reset this p)) with false by (by rewrite Hr).
    rewrite Hr. simpl.
    destruct (Z.to_nat (order this)) as [|n] eqn:En; [lia|].
    simpl for_loop.
    match goal with
    | |- context [for_loop 1 n ?b (?fd, ?x)] =>
        pose proof (cascade_below (alpha this) n 1 fd x 0 ltac:(lia)) as Hb;
        destruct (for_loop 1 n b (fd, x)) as [fd' x'] eqn:E
    end.
    simpl in *. exact Hb.
Qed.

Lemma reset_sets_stages_only_witness :
  firstSample (reset running_filter F32.zero) = false /\
  filterData (fst (filter (reset running_filter F32.zero) f32_8)) !! 0%nat
  = Some (F32.of_int 4).
Proof.
  pose proof (reset_sets_stages_only running_filter F32.zero f32_8
                eq_refl ltac:(vm_compute; split; discriminate)) as H.
  split; [apply H | apply (proj2 (proj2 (proj2 (proj2 H)))); reflexivity].
Defined.

(** C7 as stated fails: after one sample, [reset(0)] leaves
    [firstSample] false and the next [filter(8)] is not seeded from 8: it
    returns 0.25. *)
Lemma reset_does_not_reseed :
  firstSample running_filter = false /\
  firstSample (reset running_filter F32.zero) = false /\
  snd (filter (reset running_filter F32.zero) f32_8) = F32.of_scaled 1 (-2) /\
  F32.eqb (snd (filter (reset running_filter F32.zero) f32_8)) f32_8 = false.
Proof. repeat split; vm_compute; reflexivity. Qed.

(** C10: the two-argument constructor discards its arguments: the object
    it builds is the one the default constructor builds, with
    [alpha = 0.5] and [order = 5]. *)
Theorem ctor2_ignores_arguments (this : t) (a : float) (o : Z) :
  ctor2 this a o = ctor this /\
  order (ctor2 this a o) = EMA_DEFAULT_ORDER /\
  alpha (ctor2 this a o) = EMA_DEFAULT_ALPHA /\
  firstSample (ctor2 this a o) = true.
Proof.
  assert (H : ctor2 this a o = ctor this).
  { unfold ctor2.
    rewrite config_accept by first [ reflexivity | by vm_compute ].
    reflexivity. }
  rewrite H. repeat split.
Qed.

End EMA_claims.

(** ** Bytes and the bus *)

Lemma sum_bytes_cons (x : Z) (bs : list Z) : sum_bytes (x :: bs) = x + sum_bytes bs.
Proof. reflexivity. Qed.

Lemma sum_bytes_map_to_uint8 (bs : list Z) :
  sum_bytes (map to_uint8 bs) mod 2 ^ 8 = sum_bytes bs mod 2 ^ 8.
Proof.
  induction bs as [|x bs IH]; [done|].
  simpl map. rewrite !sum_bytes_cons. unfold to_uint8 at 1.
  rewrite Z.add_mod, IH, Z.mod_mod, <- Z.add_mod by lia. done.
Qed.

Lemma map_to_uint8_id (bs : list Z) : Forall is_byte bs -> map to_uint8 bs = bs.
Proof.
  induction 1 as [|x bs Hx _ IH]; [done|].
  simpl. rewrite IH. unfold to_uint8. by rewrite Z.mod_small.
Qed.

Lemma chks_loop (b : list Z) (n : nat) :
  forall (i : nat) (acc : Z),
    0 <= acc < 2 ^ 8 ->
    (i + n <= length b)%nat ->
    for_loop i n (fun i chks => to_uint8 (chks + b !!! i)) acc
    = (acc + sum_bytes (take n (drop i b))) mod 2 ^ 8.
Proof.
  induction n as [|n IH]; intros i acc Hacc Hlen.
  - simpl. rewrite Z.add_0_r. by rewrite Z.mod_small.
  - simpl for_loop.
    assert (Hi : (i < length b)%nat) by lia.
    destruct (lookup_lt_is_Some_2 b i Hi) as [x Hx].
    rewrite (list_lookup_total_correct _ _ _ Hx).
    rewrite IH; [|unfold to_uint8; apply Z.mod_pos_bound; lia|lia].
    rewrite (drop_S _ _ _ Hx). simpl take. rewrite sum_bytes_cons.
    unfold to_uint8. rewrite Zplus_mod_idemp_l. f_equal. lia.
Qed.

Lemma frame_chks_sum (b : list Z) :
  length b = 32%nat -> frame_chks b = sum_bytes b mod 2 ^ 8.
Proof.
  intros Hlen. unfold frame_chks, sizeof_tI2CTable.
  rewrite chks_loop by (rewrite ?Hlen; lia).
  rewrite drop_0, take_ge by (rewrite Hlen; lia). by rewrite Z.add_0_l.
Qed.

Lemma masterRead_while_fits (wire : list Z) (len : Z) :
  forall (mem : list Z) (pt : nat),
    (pt + length wire <= length mem)%nat ->
    Z.of_nat (pt + length wire) <= len < 2 ^ 32 ->
    masterRead_while wire len mem pt (Z.of_nat pt)
    = (take pt mem ++ map to_uint8 wire ++ drop (pt + length wire) mem,
       Z.of_nat (pt + length wire)).
Proof.
  induction wire as [|b wire IH]; intros mem pt Hmem Hlen; simpl in *.
  - rewrite Nat.add_0_r. by rewrite take_drop.
  - replace (Z.of_nat pt <? len) with true by (symmetry; apply Z.ltb_lt; lia).
    replace (to_uint32 (Z.of_nat pt + 1)) with (Z.of_nat (S pt))
      by (unfold to_uint32; rewrite Z.mod_small; lia).
    rewrite IH by (rewrite ?length_insert; lia).
    rewrite (take_S_r (<[pt:=to_uint8 b]> mem) pt (to_uint8 b))
      by (apply list_lookup_insert_eq; lia).
    rewrite take_insert_ge, drop_insert_lt by lia.
    rewrite <- app_assoc. simpl.
    by replace (S (pt + length wire)) with (pt + S (length wire))%nat by lia.
Qed.

Lemma masterRead_frame (wire mem : list Z) (address dataAddress : Z) :
  length wire = 32%nat -> length mem = 32%nat ->
  masterRead wire address dataAddress mem 0 sizeof_tI2CTable
  = (map to_uint8 wire, true).
Proof.
  intros Hw Hm. unfold masterRead.
  change 0 with (Z.of_nat 0) at 1.
  rewrite (masterRead_while_fits wire sizeof_tI2CTable mem 0)
    by (rewrite ?Hw, ?Hm; unfold sizeof_tI2CTable; simpl; lia).
  rewrite Hw. simpl.
  rewrite drop_ge by lia. by rewrite app_nil_r.
Qed.

Lemma decode_error (b : list Z) :
  length b = 32%nat -> sum_bytes b mod 2 ^ 8 <> 0 -> decode b = ChecksumError.
Proof.
  intros Hlen Hsum. unfold decode. rewrite frame_chks_sum by done.
  by destruct (Z.eqb_spec (sum_bytes b mod 2 ^ 8) 0).
Qed.

Lemma decode_frame (b : list Z) :
  length b = 32%nat -> sum_bytes b mod 2 ^ 8 = 0 ->
  decode b = Frame (decode_fields b).
Proof.
  intros Hlen Hsum. unfold decode. rewrite frame_chks_sum by done.
  by rewrite Hsum.
Qed.

(** C1: a 32-byte block decodes exactly when its bytes sum to 0 modulo 256;
    otherwise the result is [ChecksumError]. The poll cycle counts a success
    in the first case and a checksum error in the second. The test is on
    the whole block only: a block whose flow and temperature fields disagree
    with their own checksum bytes still decodes when the grand sum is
    zero. *)
Theorem decode_iff_sum_zero (b : list Z) :
  length b = 32%nat ->
  ((exists d, decode b = Frame d) <-> sum_bytes b mod 2 ^ 8 = 0) /\
  (sum_bytes b mod 2 ^ 8 <> 0 -> decode b = ChecksumError) /\
  (sum_bytes b mod 2 ^ 8 = 0 -> decode b = Frame (decode_fields b)) /\
  (forall g : Globals,
     length (I2CFrame g) = 32%nat ->
     (sum_bytes b mod 2 ^ 8 = 0 ->
      success (loop g b) = to_uint32 (success g + 1) /\
      error (loop g b) = error g) /\
     (sum_bytes b mod 2 ^ 8 <> 0 ->
      success (loop g b) = success g /\
      error (loop g b) = to_uint32 (error g + 1))) /\
  (sum_bytes (take 4 frame_fields_off) mod 2 ^ 8 = 1 /\
   sum_bytes (take 3 (drop 4 frame_fields_off)) mod 2 ^ 8 = 255 /\
   decode frame_fields_off = Frame (decode_fields frame_fields_off)).
Proof.
  intros Hlen. split; [|split; [|split; [|split]]].
  - split.
    + intros [d Hd].
      destruct (Z.eq_dec (sum_bytes b mod 2 ^ 8) 0) as [|Hne]; [done|].
      rewrite decode_error in Hd by done. discriminate.
    + intros Hsum. eexists. by apply decode_frame.
  - by apply decode_error.
  - by apply decode_frame.
  - intros g Hg. split; intros Hsum; unfold loop;
      rewrite masterRead_frame by done.
    + rewrite decode_frame;
        [|by rewrite length_map|by rewrite sum_bytes_map_to_uint8].
      by destruct (flow_process _ _).
    + rewrite decode_error;
        [done|by rewrite length_map|by rewrite sum_bytes_map_to_uint8].
  - repeat split.
Qed.

Lemma decode_iff_sum_zero_witness :
  decode frame_flow_010000 = Frame (decode_fields frame_flow_010000).
Proof.
  apply (decode_iff_sum_zero frame_flow_010000 eq_refl). reflexivity.
Defined.

(** C3: when the 32 bytes read do not sum to zero, the cycle stores them in
    the frame buffer, counts one checksum error and advances the loop
    counter; the decoded variables, [flowValue], the filter and the other
    two counters are left as they were. *)
Theorem checksum_failure_keeps_state (g : Globals) (wire : list Z) :
  length wire = 32%nat -> length (I2CFrame g) = 32%nat ->
  sum_bytes wire mod 2 ^ 8 <> 0 ->
  loop g wire
  = mkGlobals (map to_uint8 wire) (flow g) (temp g) (range g) (serialNumber g)
      (version g) (fwChks g) (flowValue g) (FlowFilter g)
      (to_uint32 (loopCounter g + 1)) (comError g) (to_uint32 (error g + 1))
      (success g).
Proof.
  intros Hw Hm Hsum. unfold loop.
  rewrite masterRead_frame by done.
  rewrite decode_error; [done|by rewrite length_map|].
  by rewrite sum_bytes_map_to_uint8.
Qed.

Lemma checksum_failure_keeps_state_witness :
  loop startup (replicate 32 1)
  = mkGlobals (replicate 32 1) 0 0 0 (replicate 10 0) (replicate 4 0) 0 F32.zero
      (cEMAFilter.ctor static_storage) 1 0 1 0.
Proof.
  apply (checksum_failure_keeps_state startup (replicate 32 1) eq_refl eq_refl).
  vm_compute. discriminate.
Defined.

(** ** Integer side of the flow conversion *)

Lemma land_bit (a n : Z) :
  0 <= n -> Z.land a (2 ^ n) = if Z.testbit a n then 2 ^ n else 0.
Proof.
  intros Hn. apply Z.bits_inj'. intros k Hk.
  rewrite Z.land_spec, Z.pow2_bits_eqb by done.
  destruct (Z.eqb_spec n k) as [->|Hne].
  - destruct (Z.testbit a k) eqn:E; simpl.
    + by rewrite Z.pow2_bits_true.
    + by rewrite Z.bits_0.
  - rewrite andb_false_r.
    destruct (Z.testbit a n); [|by rewrite Z.bits_0].
    rewrite Z.pow2_bits_false; [done|done].
Qed.

Lemma testbit_23 (a : Z) :
  0 <= a < 2 ^ 24 -> Z.testbit a 23 = (2 ^ 23 <=? a).
Proof.
  intros Ha.
  destruct (Z.leb_spec (2 ^ 23) a) as [Hge|Hlt].
  - apply Z.testbit_true; [lia|].
    replace (a / 2 ^ 23) with 1; [done|].
    apply (Z.div_unique a (2 ^ 23) 1 (a - 2 ^ 23)); lia.
  - apply Z.bits_above_log2; [lia|].
    destruct (Z.eq_dec a 0) as [->|Hne]; [done|].
    apply Z.log2_lt_pow2; lia.
Qed.

(** [(~flow) + 1] then [& 0x7FFFFF] on an [int32_t] holding a 24-bit value. *)
Lemma negate_and_mask (a : Z) :
  0 <= a < 2 ^ 24 ->
  Z.land (to_int32 (Z.lnot a + 1)) 0x7FFFFF = (- a) mod 2 ^ 23.
Proof.
  intros Ha.
  replace (Z.lnot a + 1) with (- a) by (unfold Z.lnot; lia).
  assert (Hs : to_int32 (- a) = - a).
  { unfold to_int32, signed.
    destruct (Z.eq_dec a 0) as [->|Hne]; [done|].
    replace ((- a) mod 2 ^ 32) with (2 ^ 32 - a)
      by (apply (Z.mod_unique (- a) (2 ^ 32) (-1)); lia).
    destruct (Z.ltb_spec (2 ^ 32 - a) (2 ^ (32 - 1))); simpl in *; lia. }
  rewrite Hs. change 0x7FFFFF with (Z.ones 23). by rewrite Z.land_ones.
Qed.

(** ** Flow conversion *)

Lemma flow_process_negative (a r : Z) :
  0 <= a < 2 ^ 24 -> Z.testbit a 23 = true ->
  flow_process a r
  = ((- a) mod 2 ^ 23,
     F32.div (F32.neg (F32.mul (F32.of_int ((- a) mod 2 ^ 23)) (F32.of_int r)))
             (F32.of_int 0x7FFFFF)).
Proof.
  intros Ha Hbit. unfold flow_process.
  change 0x800000 with (2 ^ 23). rewrite land_bit, Hbit by lia.
  simpl negb. cbv iota. by rewrite negate_and_mask.
Qed.

Lemma flow_process_positive (a r : Z) :
  Z.testbit a 23 = false ->
  flow_process a r
  = (a, F32.div (F32.mul (F32.of_int a) (F32.of_int r)) (F32.of_int 0x7FFFFF)).
Proof.
  intros Hbit. unfold flow_process.
  change 0x800000 with (2 ^ 23). rewrite land_bit, Hbit by lia. reflexivity.
Qed.

(** C2 (amended): for a 24-bit [rawFlow] with bit 23 set the magnitude is
    the two's-complement negation masked with 0x7FFFFF, that is
    [(2^24 - rawFlow) mod 2^23], and the result is
    [-(magnitude * rawRange) / 0x7FFFFF] in binary32; with bit 23 clear it is
    [(rawFlow * rawRange) / 0x7FFFFF]. So [convert(0x800001, 1000)] has
    magnitude 0x7FFFFF and is -1000, [convert(0xFFFFFF, 1000)] has magnitude
    1 and is the negation of [convert(0x000001, 1000)], and
    [convert(0, 1000)] is 0. *)
Theorem flow_process_twos_complement (rawFlow rawRange : Z) :
  0 <= rawFlow < 2 ^ 24 ->
  (Z.testbit rawFlow 23 = true ->
   flow_process rawFlow rawRange
   = (Z.land (- rawFlow) 0x7FFFFF,
      F32.div (F32.neg (F32.mul (F32.of_int (Z.land (- rawFlow) 0x7FFFFF))
                                (F32.of_int rawRange)))
              (F32.of_int 0x7FFFFF)) /\
   Z.land (- rawFlow) 0x7FFFFF = (2 ^ 24 - rawFlow) mod 2 ^ 23) /\
  (Z.testbit rawFlow 23 = false ->
   flow_process rawFlow rawRange
   = (rawFlow,
      F32.div (F32.mul (F32.of_int rawFlow) (F32.of_int rawRange))
              (F32.of_int 0x7FFFFF))) /\
  flow_process 0x800001 1000 = (0x7FFFFF, F32.of_int (-1000)) /\
  flow_process 0xFFFFFF 1000 = (1, F32.neg (snd (flow_process 0x000001 1000))) /\
  flow_process 0x000001 1000 = (1, S754_finite false 16384002 (-37)) /\
  flow_process 0 1000 = (0, F32.zero).
Proof.
  intros Ha. split; [|split; [|by repeat split]].
  - intros Hbit.
    assert (Hmask : Z.land (- rawFlow) 0x7FFFFF = (- rawFlow) mod 2 ^ 23)
      by (change 0x7FFFFF with (Z.ones 23); by rewrite Z.land_ones).
    rewrite Hmask. split; [by apply flow_process_negative|].
    replace (2 ^ 24 - rawFlow) with (- rawFlow + 2 * 2 ^ 23) by lia.
    by rewrite Z.mod_add.
  - apply flow_process_positive.
Qed.

Lemma flow_process_twos_complement_witness :
  flow_process 0x800002 1000
  = (Z.land (- 0x800002) 0x7FFFFF,
     F32.div (F32.neg (F32.mul (F32.of_int (Z.land (- 0x800002) 0x7FFFFF))
                               (F32.of_int 1000)))
             (F32.of_int 0x7FFFFF)).
Proof.
  apply (flow_process_twos_complement 0x800002 1000); [lia|reflexivity].
Defined.

(** C2 as stated fails on its example: [convert(0x800001, 1000)] has
    magnitude 0x7FFFFF, not 1, and equals -1000, which is not the negation
    of [convert(0x000001, 1000)]. *)
Lemma flow_800001_magnitude :
  fst (flow_process 0x800001 1000) = 0x7FFFFF /\
  snd (flow_process 0x800001 1000) = F32.of_int (-1000) /\
  snd (flow_process 0x000001 1000) = S754_finite false 16384002 (-37) /\
  F32.eqb (snd (flow_process 0x800001 1000))
          (F32.neg (snd (flow_process 0x000001 1000))) = false.
Proof. by repeat split. Qed.

(** C8: with [rawRange = 0] the converted value is a zero (+0 when bit 23
    of [rawFlow] is clear, -0 when it is set), equal to 0 under the
    comparison [==]; the divisor is the constant [(float)0x7FFFFF], which is
    not zero. *)
Theorem zero_range_gives_zero (rawFlow : Z) :
  0 <= rawFlow < 2 ^ 24 ->
  snd (flow_process rawFlow 0) = S754_zero (Z.testbit rawFlow 23) /\
  F32.eqb (snd (flow_process rawFlow 0)) F32.zero = true /\
  F32.is_zero (snd (flow_process rawFlow 0)) = true /\
  F32.of_int 0x7FFFFF = S754_finite false 16777214 (-1) /\
  F32.eqb (F32.of_int 0x7FFFFF) F32.zero = false.
Proof.
  intros Ha.
  assert (H : snd (flow_process rawFlow 0) = S754_zero (Z.testbit rawFlow 23)).
  { destruct (Z.testbit rawFlow 23) eqn:Hbit.
    - rewrite flow_process_negative by done. simpl snd.
      destruct (of_int_small ((- rawFlow) mod 2 ^ 23)) as [->|(m & e & ->)];
        [pose proof (Z.mod_pos_bound (- rawFlow) (2 ^ 23)); lia|done|done].
    - rewrite flow_process_positive by done. simpl snd.
      destruct (of_int_small rawFlow) as [->|(m & e & ->)]; done. }
  rewrite H. by repeat split.
Qed.

Lemma zero_range_gives_zero_witness :
  snd (flow_process 0x800001 0) = S754_zero true.
Proof. apply (zero_range_gives_zero 0x800001). lia. Defined.

(** ** Field extraction *)

Lemma to_int32_small (z : Z) : 0 <= z < 2 ^ 31 -> to_int32 z = z.
Proof.
  intros Hz. unfold to_int32, signed.
  rewrite Z.mod_small by lia.
  destruct (Z.ltb_spec z (2 ^ (32 - 1))); [done|]. simpl in *. lia.
Qed.

Lemma to_uint32_small (z : Z) : 0 <= z < 2 ^ 32 -> to_uint32 z = z.
Proof. intros Hz. unfold to_uint32. by rewrite Z.mod_small. Qed.

Lemma to_int16_pattern (z : Z) : to_int16 z mod 2 ^ 16 = z mod 2 ^ 16.
Proof.
  unfold to_int16, signed.
  destruct (Z.ltb_spec (z mod 2 ^ 16) (2 ^ (16 - 1))).
  - by rewrite Z.mod_mod.
  - rewrite <- (Z.mod_add _ 1) by lia.
    replace (z mod 2 ^ 16 - 2 ^ 16 + 1 * 2 ^ 16) with (z mod 2 ^ 16) by lia.
    by rewrite Z.mod_mod.
Qed.

Lemma le_bytes_0 (n : nat) : le_bytes n 0 = replicate n 0.
Proof.
  induction n as [|n IH]; [done|].
  change (le_bytes (S n) 0) with (0 :: le_bytes n 0). by rewrite IH.
Qed.

(** A block of exactly 32 bytes, named byte by byte. *)
Ltac frame_bytes b Hlen :=
  do 32 (destruct b as [|? b]; [discriminate Hlen|]);
  destruct b; [clear Hlen|discriminate Hlen].

Ltac byte_ranges H :=
  repeat match type of H with
         | Forall _ (_ :: _) => apply Forall_cons_1 in H as [? H]
         end;
  clear H; unfold is_byte in *.

Lemma decode_fields_spans (b : list Z) :
  length b = 32%nat -> Forall is_byte b ->
  decode_fields b
  = mkDecoded
      (b !!! 0%nat + 2 ^ 8 * b !!! 1%nat + 2 ^ 16 * b !!! 2%nat)
      (to_int16 (b !!! 4%nat + 2 ^ 8 * b !!! 5%nat))
      (b !!! 7%nat + 2 ^ 8 * b !!! 8%nat + 2 ^ 16 * b !!! 9%nat)
      (take 10 (drop 11 b))
      (take 4 (drop 22 b))
      (b !!! 27%nat + 2 ^ 8 * b !!! 28%nat + 2 ^ 16 * b !!! 29%nat
       + 2 ^ 24 * b !!! 30%nat).
Proof.
  intros Hlen Hb. frame_bytes b Hlen. byte_ranges Hb.
  unfold decode_fields, rebuild_int32, rebuild_int16, rebuild_uint32,
    RebuildVarFromBuffer, member.
  rewrite !le_bytes_0.
  cbn [off_flow off_temp off_range off_serialNumber off_version off_fwChks
       drop take app le_bytes replicate le_value list_lookup_total
       lookup_total].
  f_equal.
  - rewrite to_int32_small by lia. lia.
  - f_equal. lia.
  - rewrite to_int32_small by lia. lia.
  - rewrite to_uint32_small by lia. lia.
Qed.

Lemma loop_valid (g : Globals) (wire : list Z) :
  length wire = 32%nat -> length (I2CFrame g) = 32%nat ->
  Forall is_byte wire -> sum_bytes wire mod 2 ^ 8 = 0 ->
  loop g wire
  = mkGlobals wire
      (fst (flow_process (d_flow (decode_fields wire)) (d_range (decode_fields wire))))
      (d_temp (decode_fields wire)) (d_range (decode_fields wire))
      (d_serialNumber (decode_fields wire)) (d_version (decode_fields wire))
      (d_fwChks (decode_fields wire))
      (snd (flow_process (d_flow (decode_fields wire)) (d_range (decode_fields wire))))
      (fst (cEMAFilter.filter (FlowFilter g)
              (snd (flow_process (d_flow (decode_fields wire))
                                 (d_range (decode_fields wire))))))
      (to_uint32 (loopCounter g + 1)) (comError g) (error g)
      (to_uint32 (success g + 1)).
Proof.
  intros Hw Hm Hb Hsum. unfold loop.
  rewrite masterRead_frame by done.
  rewrite map_to_uint8_id by done.
  rewrite decode_frame by done.
  by destruct (flow_process _ _).
Qed.

(** C4: for a block that passes the checksum, every decoded variable is the
    little-endian value of its own byte span: flow from bytes 0..2,
    temperature from bytes 4..5 (as a 16-bit two's-complement pattern),
    range from bytes 7..9, the serial number and version arrays from bytes
    11..20 and 22..25, the firmware checksum from bytes 27..30. Bytes
    [10 20 00] give flow 0x002010. After the cycle the program's variables
    hold these values, [flow] as long as its bit 23 is clear. *)
Theorem decoded_fields_little_endian (b : list Z) :
  length b = 32%nat -> Forall is_byte b -> sum_bytes b mod 2 ^ 8 = 0 ->
  exists d,
    decode b = Frame d /\
    d_flow d = b !!! 0%nat + 2 ^ 8 * b !!! 1%nat + 2 ^ 16 * b !!! 2%nat /\
    d_temp d = to_int16 (b !!! 4%nat + 2 ^ 8 * b !!! 5%nat) /\
    d_temp d mod 2 ^ 16 = b !!! 4%nat + 2 ^ 8 * b !!! 5%nat /\
    d_range d = b !!! 7%nat + 2 ^ 8 * b !!! 8%nat + 2 ^ 16 * b !!! 9%nat /\
    d_serialNumber d = take 10 (drop 11 b) /\
    d_version d = take 4 (drop 22 b) /\
    d_fwChks d = b !!! 27%nat + 2 ^ 8 * b !!! 28%nat + 2 ^ 16 * b !!! 29%nat
                 + 2 ^ 24 * b !!! 30%nat /\
    (take 3 b = [0x10; 0x20; 0x00] -> d_flow d = 0x002010) /\
    (forall g : Globals,
       length (I2CFrame g) = 32%nat ->
       temp (loop g b) = d_temp d /\
       range (loop g b) = d_range d /\
       serialNumber (loop g b) = d_serialNumber d /\
       version (loop g b) = d_version d /\
       fwChks (loop g b) = d_fwChks d /\
       (Z.testbit (d_flow d) 23 = false -> flow (loop g b) = d_flow d)).
Proof.
  intros Hlen Hb Hsum. exists (decode_fields b).
  split; [by apply decode_frame|].
  assert (Hloop : forall g : Globals,
             length (I2CFrame g) = 32%nat ->
             temp (loop g b) = d_temp (decode_fields b) /\
             range (loop g b) = d_range (decode_fields b) /\
             serialNumber (loop g b) = d_serialNumber (decode_fields b) /\
             version (loop g b) = d_version (decode_fields b) /\
             fwChks (loop g b) = d_fwChks (decode_fields b) /\
             (Z.testbit (d_flow (decode_fields b)) 23 = false ->
              flow (loop g b) = d_flow (decode_fields b))).
  { intros g Hg. rewrite loop_valid by done. simpl.
    repeat split. intros Hbit. by rewrite flow_process_positive. }
  revert Hloop. rewrite decode_fields_spans by done. simpl. intros Hloop.
  repeat split; try apply Hloop; try done.
  - rewrite to_int16_pattern. frame_bytes b Hlen. byte_ranges Hb.
    cbn [list_lookup_total lookup_total].
    rewrite Z.mod_small; lia.
  - intros Hflow. frame_bytes b Hlen. injection Hflow as -> -> ->. reflexivity.
Qed.

Lemma frame_flow_010000_bytes : Forall is_byte frame_flow_010000.
Proof. unfold frame_flow_010000. simpl. repeat constructor; unfold is_byte; lia. Qed.

Lemma decoded_fields_little_endian_witness :
  exists d, decode frame_flow_010000 = Frame d /\ d_flow d = 0x010000 /\
            d_range d = 1000.
Proof.
  destruct (decoded_fields_little_endian frame_flow_010000 eq_refl
              frame_flow_010000_bytes eq_refl)
    as (d & Hd & Hflow & _ & _ & Hrange & _).
  exists d. split; [exact Hd|]. split; [rewrite Hflow|rewrite Hrange]; reflexivity.
Defined.

(** ** A complete poll cycle on a block that passes the checksum *)

(** C9 (amended): for a block that passes the checksum with flow bytes
    [00 00 01] and range bytes [E8 03 00], the raw flow is 0x010000, whose
    bit 23 is clear, so it is not negated; the range is 1000 and the
    engineering value is the positive binary32 quotient
    [65536000 / 8388607 = 16384002 * 2^-21], about 7.8125, which is what
    the filter is fed. *)
Theorem scenario_flow_010000 (g : Globals) (wire : list Z) :
  length wire = 32%nat -> length (I2CFrame g) = 32%nat ->
  Forall is_byte wire -> sum_bytes wire mod 2 ^ 8 = 0 ->
  take 3 wire = [0x00; 0x00; 0x01] ->
  take 3 (drop 7 wire) = [0xE8; 0x03; 0x00] ->
  flow (loop g wire) = 0x010000 /\
  Z.testbit (flow (loop g wire)) 23 = false /\
  range (loop g wire) = 1000 /\
  flowValue (loop g wire) = S754_finite false 16384002 (-21) /\
  flowValue (loop g wire)
  = F32.div (F32.of_int (0x010000 * 1000)) (F32.of_int 0x7FFFFF) /\
  F32.is_negative (flowValue (loop g wire)) = false /\
  FlowFilter (loop g wire)
  = fst (cEMAFilter.filter (FlowFilter g) (S754_finite false 16384002 (-21))) /\
  success (loop g wire) = to_uint32 (success g + 1) /\
  error (loop g wire) = error g.
Proof.
  intros Hw Hm Hb Hsum Hflow Hrange.
  rewrite loop_valid by done.
  rewrite decode_fields_spans by done.
  frame_bytes wire Hw.
  injection Hflow as -> -> ->. injection Hrange as -> -> ->.
  cbn [d_flow d_range d_temp list_lookup_total lookup_total flow range
       flowValue FlowFilter success error].
  by repeat split.
Qed.

Lemma scenario_flow_010000_witness :
  flow (loop startup frame_flow_010000) = 0x010000 /\
  flowValue (loop startup frame_flow_010000) = S754_finite false 16384002 (-21).
Proof.
  pose proof (scenario_flow_010000 startup frame_flow_010000 eq_refl eq_refl
                frame_flow_010000_bytes eq_refl eq_refl eq_refl) as H.
  split; apply H.
Defined.

(** C9 as stated fails: on such a block the code leaves the flow at
    0x010000 (bit 23 clear, no negation to 0x7F0000) and the engineering
    value is positive. *)
Lemma scenario_flow_010000_not_negative :
  length frame_flow_010000 = 32%nat /\
  sum_bytes frame_flow_010000 mod 2 ^ 8 = 0 /\
  take 3 frame_flow_010000 = [0x00; 0x00; 0x01] /\
  take 3 (drop 7 frame_flow_010000) = [0xE8; 0x03; 0x00] /\
  Z.land 0x010000 0x800000 = 0 /\
  flow (loop startup frame_flow_010000) = 0x010000 /\
  flow (loop startup frame_flow_010000) <> 0x7F0000 /\
  F32.is_negative (flowValue (loop startup frame_flow_010000)) = false /\
  flowValue (loop startup frame_flow_010000) = S754_finite false 16384002 (-21).
Proof. by repeat split. Qed.

(** ** Transport failure *)




(** ** The filter keeps its configuration *)

Lemma cascade_length (a : float) (n : nat) :
  forall (i : nat) (fd : list float) (x : float),
    length (fst (for_loop i n (cEMAFilter.filter_body a) (fd, x))) = length fd.
Proof.
  induction n as [|n IH]; intros i fd x; simpl; [done|].
  rewrite IH. apply length_insert.
Qed.

Lemma fill_length {A} (v : A) (n : nat) :
  forall (i : nat) (fd : list A),
    length (for_loop i n (fun i fd => <[i := v]> fd) fd) = length fd.
Proof.
  induction n as [|n IH]; intros i fd; simpl; [done|].
  rewrite IH. apply length_insert.
Qed.

(** [filter] changes neither [order] nor [alpha] nor the size of the stage
    array, clears [firstSample], and caches what it returns: [getValue]
    afterwards gives the returned value. *)
Theorem filter_keeps_configuration (this : cEMAFilter.t) (v : float) :
  cEMAFilter.order (fst (cEMAFilter.filter this v)) = cEMAFilter.order this /\
  cEMAFilter.alpha (fst (cEMAFilter.filter this v)) = cEMAFilter.alpha this /\
  cEMAFilter.firstSample (fst (cEMAFilter.filter this v)) = false /\
  length (cEMAFilter.filterData (fst (cEMAFilter.filter this v)))
  = length (cEMAFilter.filterData this) /\
  cEMAFilter.getValue (fst (cEMAFilter.filter this v))
  = snd (cEMAFilter.filter this v).
Proof.
  unfold cEMAFilter.filter.
  set (this' := if cEMAFilter.firstSample this
                then cEMAFilter.set_firstSample (cEMAFilter.reset this v) false
                else this).
  assert (H : cEMAFilter.order this' = cEMAFilter.order this /\
              cEMAFilter.alpha this' = cEMAFilter.alpha this /\
              cEMAFilter.firstSample this' = false /\
              length (cEMAFilter.filterData this')
              = length (cEMAFilter.filterData this)).
  { subst this'. destruct (cEMAFilter.firstSample this) eqn:Hfs; simpl;
      [by rewrite fill_length|done]. }
  destruct H as (Ho & Ha & Hfs & Hl). clearbody this'.
  pose proof (cascade_length (cEMAFilter.alpha this')
                (Z.to_nat (cEMAFilter.order this')) 0
                (cEMAFilter.filterData this') v) as Hc.
  destruct (for_loop 0 _ _ (cEMAFilter.filterData this', v)) as [fd x].
  unfold cEMAFilter.set_filtValue, cEMAFilter.set_filterData,
    cEMAFilter.getValue.
  simpl in *. repeat split; try done. by rewrite Hc.
Qed.

(** ** What masterRead stores *)




(** ** Counters *)

(** Every cycle, whatever the bus delivers, advances [loopCounter] and
    exactly one of [success], [error] and [comError]; the other two keep
    their values. *)
Theorem loop_counts_one_outcome (g : Globals) (wire : list Z) :
  loopCounter (loop g wire) = to_uint32 (loopCounter g + 1) /\
  ((success (loop g wire) = to_uint32 (success g + 1) /\
    error (loop g wire) = error g /\ comError (loop g wire) = comError g) \/
   (success (loop g wire) = success g /\
    error (loop g wire) = to_uint32 (error g + 1) /\
    comError (loop g wire) = comError g) \/
   (success (loop g wire) = success g /\ error (loop g wire) = error g /\
    comError (loop g wire) = to_uint32 (comError g + 1))).
Proof.
  unfold loop.
  destruct (masterRead wire FLOWTEX_ADDR 0 (I2CFrame g) 0 sizeof_tI2CTable)
    as [buf [|]]; [destruct (decode buf) as [|d]|].
  - split; [done|]. right. left. by repeat split.
  - destruct (flow_process (d_flow d) (d_range d)).
    split; [done|]. left. by repeat split.
  - split; [done|]. right. right. by repeat split.
Qed.

Lemma run_cons (g : Globals) (w : list Z) (ws : list (list Z)) :
  run g (w :: ws) = run (loop g w) ws.
Proof. reflexivity. Qed.

Lemma run_counters_mod (ws : list (list Z)) :
  forall g : Globals,
    loopCounter (run g ws) mod 2 ^ 32
    = (loopCounter g + Z.of_nat (length ws)) mod 2 ^ 32 /\
    (success (run g ws) + error (run g ws) + comError (run g ws)) mod 2 ^ 32
    = (success g + error g + comError g + Z.of_nat (length ws)) mod 2 ^ 32.
Proof.
  induction ws as [|w ws IH]; intros g.
  - simpl. by rewrite !Z.add_0_r.
  - rewrite run_cons. destruct (IH (loop g w)) as [IHl IHs].
    destruct (loop_counts_one_outcome g w) as [Hl Hc].
    cbn [length]. rewrite Nat2Z.inj_succ.
    split.
    + rewrite IHl, Hl. unfold to_uint32.
      rewrite Zplus_mod_idemp_l. f_equal. lia.
    + rewrite IHs. unfold to_uint32 in Hc.
      destruct Hc as [(-> & -> & ->)|[(-> & -> & ->)|(-> & -> & ->)]].
      * replace ((success g + 1) mod 2 ^ 32 + error g + comError g
                 + Z.of_nat (length ws))
          with ((success g + 1) mod 2 ^ 32
                + (error g + comError g + Z.of_nat (length ws))) by lia.
        rewrite Zplus_mod_idemp_l. f_equal. lia.
      * replace (success g + (error g + 1) mod 2 ^ 32 + comError g
                 + Z.of_nat (length ws))
          with ((error g + 1) mod 2 ^ 32
                + (success g + comError g + Z.of_nat (length ws))) by lia.
        rewrite Zplus_mod_idemp_l. f_equal. lia.
      * replace (success g + error g + (comError g + 1) mod 2 ^ 32
                 + Z.of_nat (length ws))
          with ((comError g + 1) mod 2 ^ 32
                + (success g + error g + Z.of_nat (length ws))) by lia.
        rewrite Zplus_mod_idemp_l. f_equal. lia.
Qed.

Lemma run_loopCounter_range (ws : list (list Z)) :
  forall g : Globals,
    0 <= loopCounter g < 2 ^ 32 -> 0 <= loopCounter (run g ws) < 2 ^ 32.
Proof.
  induction ws as [|w ws IH]; intros g Hg; [done|].
  rewrite run_cons. apply IH.
  destruct (loop_counts_one_outcome g w) as [-> _].
  unfold to_uint32. apply Z.mod_pos_bound. lia.
Qed.

(** Over any number of cycles from any state, the three result counters
    together advance by the number of cycles (modulo 2^32): every cycle is
    accounted for in exactly one of them. So does [loopCounter]. *)
Theorem run_accounts_every_cycle (g : Globals) (ws : list (list Z)) :
  (success (run g ws) + error (run g ws) + comError (run g ws)) mod 2 ^ 32
  = (success g + error g + comError g + Z.of_nat (length ws)) mod 2 ^ 32 /\
  loopCounter (run g ws) mod 2 ^ 32
  = (loopCounter g + Z.of_nat (length ws)) mod 2 ^ 32.
Proof.
  destruct (run_counters_mod ws g) as [Hl Hs]. by split.
Qed.

(** From start-up the report block is skipped in the first 51 cycles and
    then runs in every cycle (as long as fewer than 2^32 cycles have run):
    [loopCounter] counts the cycles and nothing resets it. [run startup ws]
    is the state in which cycle number [length ws] evaluates the guard. *)
Theorem report_due_after_51_cycles (ws : list (list Z)) :
  Z.of_nat (length ws) < 2 ^ 32 ->
  loopCounter (run startup ws) = Z.of_nat (length ws) /\
  report_due (run startup ws) = (50 <? Z.of_nat (length ws)).
Proof.
  intros Hlen.
  assert (H : loopCounter (run startup ws) = Z.of_nat (length ws)).
  { destruct (run_counters_mod ws startup) as [Hl _].
    pose proof (run_loopCounter_range ws startup ltac:(simpl; lia)) as Hr.
    rewrite Z.mod_small in Hl by done.
    rewrite Hl. simpl loopCounter. rewrite Z.add_0_l. apply Z.mod_small. lia. }
  split; [done|]. unfold report_due. by rewrite H.
Qed.

Lemma report_due_after_51_cycles_witness :
  report_due (run startup (replicate 51 [])) = true /\
  report_due (run startup (replicate 50 [])) = false.
Proof.
  split.
  - pose proof (report_due_after_51_cycles (replicate 51 [])
                  ltac:(simpl; lia)) as [_ H].
    exact H.
  - reflexivity.
Defined.

(** ** Value ranges after a cycle *)

Lemma flow_process_magnitude (a r : Z) :
  0 <= a < 2 ^ 24 -> 0 <= fst (flow_process a r) < 2 ^ 23.
Proof.
  intros Ha. destruct (Z.testbit a 23) eqn:Hbit.
  - rewrite flow_process_negative by done. simpl fst.
    apply Z.mod_pos_bound. lia.
  - rewrite flow_process_positive by done. simpl fst.
    rewrite testbit_23 in Hbit by done. apply Z.leb_gt in Hbit. lia.
Qed.

(** After a cycle on a block that passes the checksum, [flow] holds a
    magnitude below 2^23 whatever the sign of the reading, [range] is a
    non-negative 24-bit number (its top byte is never written), [temp] and
    [fwChks] are in the range of their types, and the serial number and
    version arrays are the 10 and 4 bytes of their spans. *)
Theorem valid_cycle_value_ranges (g : Globals) (wire : list Z) :
  length wire = 32%nat -> length (I2CFrame g) = 32%nat ->
  Forall is_byte wire -> sum_bytes wire mod 2 ^ 8 = 0 ->
  0 <= flow (loop g wire) < 2 ^ 23 /\
  0 <= range (loop g wire) < 2 ^ 24 /\
  - 2 ^ 15 <= temp (loop g wire) < 2 ^ 15 /\
  0 <= fwChks (loop g wire) < 2 ^ 32 /\
  length (serialNumber (loop g wire)) = 10%nat /\
  length (version (loop g wire)) = 4%nat /\
  Forall is_byte (serialNumber (loop g wire)) /\
  Forall is_byte (version (loop g wire)) /\
  I2CFrame (loop g wire) = wire.
Proof.
  intros Hw Hm Hb Hsum.
  rewrite loop_valid by done.
  rewrite decode_fields_spans by done.
  cbn [flow range temp fwChks serialNumber version I2CFrame
       d_flow d_range d_temp d_fwChks d_serialNumber d_version].
  assert (Hsn : Forall is_byte (take 10 (drop 11 wire)))
    by (by apply Forall_take, Forall_drop).
  assert (Hv : Forall is_byte (take 4 (drop 22 wire)))
    by (by apply Forall_take, Forall_drop).
  assert (Hl1 : length (take 10 (drop 11 wire)) = 10%nat)
    by (rewrite length_take, length_drop; lia).
  assert (Hl2 : length (take 4 (drop 22 wire)) = 4%nat)
    by (rewrite length_take, length_drop; lia).
  frame_bytes wire Hw. byte_ranges Hb.
  cbn [list_lookup_total lookup_total].
  repeat split; try done; try lia.
  - apply flow_process_magnitude. lia.
  - apply flow_process_magnitude. lia.
  - unfold to_int16, signed.
    destruct (Z.ltb_spec ((z3 + 2 ^ 8 * z4) mod 2 ^ 16) (2 ^ (16 - 1)));
      pose proof (Z.mod_pos_bound (z3 + 2 ^ 8 * z4) (2 ^ 16)); lia.
  - unfold to_int16, signed.
    destruct (Z.ltb_spec ((z3 + 2 ^ 8 * z4) mod 2 ^ 16) (2 ^ (16 - 1)));
      pose proof (Z.mod_pos_bound (z3 + 2 ^ 8 * z4) (2 ^ 16)); simpl in *; lia.
Qed.

Lemma valid_cycle_value_ranges_witness :
  0 <= flow (loop startup frame_flow_010000) < 2 ^ 23 /\
  0 <= range (loop startup frame_flow_010000) < 2 ^ 24.
Proof.
  pose proof (valid_cycle_value_ranges startup frame_flow_010000 eq_refl
                eq_refl frame_flow_010000_bytes eq_refl) as H.
  split; apply H.
Defined.

(** ** Symmetry of the flow conversion *)

Lemma round_aux_negb (s : bool) (m e : Z) (l : location) :
  binary_round_aux F32.prec F32.emax (negb s) m e l
  = SFopp (binary_round_aux F32.prec F32.emax s m e l).
Proof.
  unfold binary_round_aux.
  destruct (shr_fexp F32.prec F32.emax m e l) as [mrs' e'].
  destruct (shr_fexp F32.prec F32.emax _ e' loc_Exact) as [mrs'' e''].
  destruct (shr_m mrs'') as [|p|p]; [done| |done].
  by destruct (e'' <=? F32.emax - F32.prec).
Qed.

(** Negating the dividend negates the quotient. *)
Lemma div_neg_l (x y : float) :
  F32.div (F32.neg x) y = F32.neg (F32.div x y).
Proof.
  destruct x as [sx|sx| |sx mx ex], y as [sy|sy| |sy my ey];
    try reflexivity;
    try (simpl; by destruct sx, sy).
  unfold F32.div, F32.neg, SFdiv, SFopp at 1.
  destruct (SFdiv_core_binary F32.prec F32.emax (Zpos mx) ex (Zpos my) ey)
    as [[mz ez] lz].
  rewrite <- round_aux_negb. by destruct sx, sy.
Qed.

(** The conversion is odd in the two's-complement reading: a raw value
    [2^24 - a] (that is [-a]) gives the magnitude [a] and exactly the
    negated value of the raw value [a]. The one negative code without a
    positive counterpart, 0x800000, loses its magnitude to the mask and
    converts to -0 for every range. *)
Theorem flow_process_odd (a r : Z) :
  0 < a < 2 ^ 23 -> 0 <= r < 2 ^ 24 ->
  fst (flow_process (2 ^ 24 - a) r) = a /\
  fst (flow_process a r) = a /\
  snd (flow_process (2 ^ 24 - a) r) = F32.neg (snd (flow_process a r)) /\
  flow_process 0x800000 r = (0, S754_zero true).
Proof.
  intros Ha Hr.
  assert (Hneg : Z.testbit (2 ^ 24 - a) 23 = true)
    by (rewrite testbit_23 by lia; apply Z.leb_le; lia).
  assert (Hpos : Z.testbit a 23 = false)
    by (rewrite testbit_23 by lia; apply Z.leb_gt; lia).
  assert (Hmag : (- (2 ^ 24 - a)) mod 2 ^ 23 = a).
  { replace (- (2 ^ 24 - a)) with (a + (-2) * 2 ^ 23) by lia.
    rewrite Z.mod_add by lia. apply Z.mod_small. lia. }
  rewrite flow_process_negative, flow_process_positive, Hmag by (done || lia).
  cbn [fst snd]. repeat split.
  - apply div_neg_l.
  - rewrite flow_process_negative by (done || lia).
    change ((- 0x800000) mod 2 ^ 23) with 0. f_equal.
    by destruct (of_int_small r Hr) as [->|(m & e & ->)].
Qed.

Lemma flow_process_odd_witness :
  snd (flow_process 0xFFFFFF 1000) = F32.neg (snd (flow_process 1 1000)).
Proof. apply (flow_process_odd 1 1000); lia. Defined.

(** ** The cascade *)

Section Cascade.

Import cEMAFilter.

Lemma cascade_spec (a : float) (n : nat) :
  forall (i : nat) (fd : list float) (x : float),
    (i + n <= length fd)%nat ->
    exists fd' x',
      for_loop i n (filter_body a) (fd, x) = (fd', x') /\
      length fd' = length fd /\
      (forall k, (k < i \/ i + n <= k)%nat -> fd' !! k = fd !! k) /\
      (forall k, (i <= k < i + n)%nat ->
         fd' !!! k
         = ema_step a (fd !!! k) (if decide (k = i) then x else fd' !!! (k - 1)%nat)) /\
      x' = (if decide (n = 0%nat) then x else fd' !!! (i + n - 1)%nat).
Proof.
  induction n as [|n IH]; intros i fd x Hlen.
  - exists fd, x. simpl. repeat split; try done. intros k Hk. lia.
  - cbn [for_loop filter_body].
    set (y := ema_step a (fd !!! i) x).
    assert (Hy : <[i:=y]> fd !!! i = y)
      by (apply list_lookup_total_insert_eq; lia).
    rewrite Hy.
    destruct (IH (S i) (<[i:=y]> fd) y) as (fd' & x' & E & Hl & Hout & Hin & Hx);
      [rewrite length_insert; lia|].
    exists fd', x'. split; [exact E|].
    assert (Hi : fd' !!! i = y).
    { rewrite <- Hy. apply list_lookup_total_correct.
      rewrite Hout by lia. apply list_lookup_lookup_total_lt.
      rewrite length_insert. lia. }
    split; [by rewrite Hl, length_insert|]. split; [|split].
    + intros k Hk. rewrite Hout by lia. apply list_lookup_insert_ne. lia.
    + intros k Hk. destruct (decide (k = i)) as [->|Hne]; [exact Hi|].
      rewrite Hin by lia.
      rewrite list_lookup_total_insert_ne by lia.
      destruct (decide (k = S i)) as [->|_]; [|done].
      by rewrite Nat.sub_succ, Nat.sub_0_r, Hi.
    + rewrite Hx. destruct (decide (n = 0%nat)) as [->|Hn].
      * rewrite decide_False by lia.
        by rewrite Nat.add_1_r, Nat.sub_succ, Nat.sub_0_r, Hi.
      * rewrite decide_False by lia. f_equal. lia.
Qed.

(** What one [filter(x)] computes on an object that has already seen a
    sample: stage 0 becomes the blend of its old value with [x], each later
    stage below [order] the blend of its old value with the new value of
    the stage before it, the stages from [order] on are not touched, and
    the value returned is the new value of stage [order - 1]. *)
Theorem filter_cascade_recurrence (this : t) (x : float) :
  firstSample this = false ->
  1 <= order this -> (Z.to_nat (order this) <= length (filterData this))%nat ->
  (forall k, (k < Z.to_nat (order this))%nat ->
     filterData (fst (filter this x)) !!! k
     = ema_step (alpha this) (filterData this !!! k)
         (if decide (k = 0%nat) then x
          else filterData (fst (filter this x)) !!! (k - 1)%nat)) /\
  (forall k, (Z.to_nat (order this) <= k)%nat ->
     filterData (fst (filter this x)) !! k = filterData this !! k) /\
  snd (filter this x)
  = filterData (fst (filter this x)) !!! (Z.to_nat (order this) - 1)%nat.
Proof.
  intros Hfs Ho Hlen. unfold filter. rewrite Hfs.
  destruct (cascade_spec (alpha this) (Z.to_nat (order this)) 0
              (filterData this) x Hlen)
    as (fd' & x' & E & Hl & Hout & Hin & Hx).
  rewrite E. cbn [fst snd filterData set_filterData set_filtValue filtValue].
  split; [|split].
  - intros k Hk. by rewrite Hin by lia.
  - intros k Hk. apply Hout. lia.
  - rewrite Hx. rewrite decide_False by lia. f_equal.
Qed.

Lemma filter_cascade_recurrence_witness :
  snd (filter running_filter f32_8)
  = filterData (fst (filter running_filter f32_8)) !!! 4%nat.
Proof.
  assert (H1 : 1 <= order running_filter) by (vm_compute; discriminate).
  assert (H2 : (Z.to_nat (order running_filter)
                <= length (filterData running_filter))%nat)
    by (vm_compute; lia).
  exact (proj2 (proj2 (filter_cascade_recurrence running_filter f32_8
                         eq_refl H1 H2))).
Defined.

End Cascade.

(** ** Constant input and NaN *)

Section Steady.

Import cEMAFilter.

Lemma filter_fixed (this : t) (v : float) :
  firstSample this = false ->
  (forall k, (k < Z.to_nat (order this))%nat -> filterData this !! k = Some v) ->
  ema_step (alpha this) v v = v ->
  filter this v = (set_filtValue this v, v).
Proof.
  intros Hfs Hst Hfix. unfold filter. rewrite Hfs.
  rewrite cascade_fixed; [|done|intros j Hj; apply Hst; lia].
  by destruct this.
Qed.

Lemma filter_samples_fixed (this : t) (v : float) (n : nat) :
  firstSample this = false -> filtValue this = v ->
  (forall k, (k < Z.to_nat (order this))%nat -> filterData this !! k = Some v) ->
  ema_step (alpha this) v v = v ->
  filter_samples this (replicate n v) = (this, replicate n v).
Proof.
  intros Hfs Hfv Hst Hfix. induction n as [|n IH]; [done|].
  cbn [replicate filter_samples]. rewrite filter_fixed by done.
  replace (set_filtValue this v) with this
    by (destruct this; simpl in *; by subst).
  by rewrite IH.
Qed.

Lemma filter_samples_constant (mem : t) (a : float) (o : Z) (v : float) (n : nat) :
  length (filterData mem) = Z.to_nat MAX_EMA_ORDER ->
  F32.ltb (F32.of_int 0) a = true -> F32.ltb a (F32.of_int 1) = true ->
  1 <= o <= MAX_EMA_ORDER ->
  ema_step a v v = v ->
  snd (filter_samples (config (ctor mem) a o) (replicate n v)) = replicate n v.
Proof.
  intros Hlen H0 H1 Ho Hfix. destruct n as [|n]; [done|].
  cbn [replicate filter_samples].
  rewrite first_filter_seeded by done.
  rewrite filter_samples_fixed; [done|done|done| |done].
  intros k Hk. apply lookup_seeded. exact Hk.
Qed.

(** A constant input is reproduced exactly for as long as it lasts: when
    the binary32 blend [alpha*v + (1-alpha)*v] evaluates to [v], every one
    of [n] successive [filter(v)] calls on a freshly configured object
    returns [v]. With the default [alpha = 0.5] that is the case for every
    [v] that is a zero, an infinity, NaN or a normal number of magnitude at
    least [2^-125]. *)
Theorem constant_input_is_reproduced
    (mem : t) (a : float) (o : Z) (v : float) (n : nat) :
  length (filterData mem) = Z.to_nat MAX_EMA_ORDER ->
  1 <= o <= MAX_EMA_ORDER ->
  (F32.ltb (F32.of_int 0) a = true -> F32.ltb a (F32.of_int 1) = true ->
   ema_step a v v = v ->
   snd (filter_samples (config (ctor mem) a o) (replicate n v))
   = replicate n v) /\
  (F32.half_exact v = true ->
   snd (filter_samples (config (ctor mem) EMA_DEFAULT_ALPHA o) (replicate n v))
   = replicate n v).
Proof.
  intros Hlen Ho. split.
  - intros H0 H1 Hfix. by apply filter_samples_constant.
  - intros Hv. apply filter_samples_constant; try done.
    by apply ema_step_half.
Qed.

Lemma constant_input_is_reproduced_witness :
  snd (filter_samples (config (ctor static_storage) EMA_DEFAULT_ALPHA 5)
         (replicate 4 f32_7))
  = replicate 4 f32_7.
Proof.
  apply (constant_input_is_reproduced static_storage EMA_DEFAULT_ALPHA 5
           f32_7 4); first [ reflexivity | unfold MAX_EMA_ORDER; lia ].
Defined.

Lemma ema_step_nan_in (a s : float) : ema_step a s F32.nan = F32.nan.
Proof.
  unfold ema_step, F32.add, F32.mul, F32.nan.
  destruct (F32.sub (F32.of_int 1) a); simpl; by destruct (SFmul _ _ a s).
Qed.

Lemma ema_step_nan_out (a x : float) : ema_step a F32.nan x = F32.nan.
Proof. unfold ema_step, F32.add, F32.mul, F32.nan. by destruct a. Qed.

Lemma cascade_nan (a : float) (n : nat) :
  forall (i : nat) (fd : list float),
    (i + n <= length fd)%nat ->
    for_loop i n (filter_body a) (fd, F32.nan)
    = (take i fd ++ replicate n F32.nan ++ drop (i + n) fd, F32.nan).
Proof.
  induction n as [|n IH]; intros i fd Hlen.
  - simpl. rewrite Nat.add_0_r. by rewrite take_drop.
  - cbn [for_loop filter_body]. rewrite ema_step_nan_in.
    rewrite list_lookup_total_insert_eq by lia.
    rewrite IH by (rewrite length_insert; lia).
    rewrite (take_S_r (<[i:=F32.nan]> fd) i F32.nan)
      by (apply list_lookup_insert_eq; lia).
    rewrite take_insert_ge, drop_insert_lt by lia.
    rewrite <- app_assoc. cbn [app replicate].
    by replace (S i + n)%nat with (i + S n)%nat by lia.
Qed.

Lemma filter_nan_stage (this : t) (x : float) :
  firstSample this = false ->
  1 <= order this -> (Z.to_nat (order this) <= length (filterData this))%nat ->
  filterData this !! 0%nat = Some F32.nan ->
  filter this x
  = (Build (replicate (Z.to_nat (order this)) F32.nan
              ++ drop (Z.to_nat (order this)) (filterData this))
           F32.nan false (order this) (alpha this), F32.nan).
Proof.
  intros Hfs Ho Hlen H0. unfold filter. rewrite Hfs.
  destruct (Z.to_nat (order this)) as [|n] eqn:En; [lia|].
  cbn [for_loop filter_body].
  rewrite (list_lookup_total_correct _ _ _ H0), ema_step_nan_out.
  rewrite list_lookup_total_insert_eq by lia.
  rewrite cascade_nan by (rewrite length_insert; lia).
  rewrite (take_S_r (<[0%nat:=F32.nan]> (filterData this)) 0 F32.nan)
    by (apply list_lookup_insert_eq; lia).
  rewrite drop_insert_lt by lia.
  unfold set_filtValue, set_filterData. cbn. by rewrite Hfs.
Qed.

Lemma filter_samples_nan (xs : list float) :
  forall this : t,
    firstSample this = false ->
    1 <= order this -> (Z.to_nat (order this) <= length (filterData this))%nat ->
    filterData this !! 0%nat = Some F32.nan ->
    snd (filter_samples this xs) = replicate (length xs) F32.nan.
Proof.
  induction xs as [|x xs IH]; intros this Hfs Ho Hlen H0; [done|].
  cbn [filter_samples]. rewrite filter_nan_stage by done.
  match goal with
  | |- context [filter_samples ?t xs] =>
      assert (IH' : snd (filter_samples t xs) = replicate (length xs) F32.nan);
      [apply IH; simpl|destruct (filter_samples t xs) as [t' outs]]
  end.
  - done.
  - done.
  - rewrite length_app, length_replicate, length_drop. lia.
  - apply lookup_seeded. lia.
  - cbn [snd length replicate] in *. by f_equal.
Qed.

(** NaN is absorbing: [filter(NaN)] returns NaN and leaves NaN in every
    stage below [order], whether or not it is the first sample, and from
    then on every [filter] call returns NaN whatever it is given. Only
    [reset] writes the stages without reading them. *)
Theorem nan_is_absorbing (this : t) (xs : list float) :
  1 <= order this -> (Z.to_nat (order this) <= length (filterData this))%nat ->
  snd (filter this F32.nan) = F32.nan /\
  take (Z.to_nat (order this)) (filterData (fst (filter this F32.nan)))
  = replicate (Z.to_nat (order this)) F32.nan /\
  snd (filter_samples (fst (filter this F32.nan)) xs)
  = replicate (length xs) F32.nan.
Proof.
  intros Ho Hlen.
  assert (E : filter this F32.nan
              = (Build (replicate (Z.to_nat (order this)) F32.nan
                          ++ drop (Z.to_nat (order this)) (filterData this))
                       F32.nan false (order this) (alpha this), F32.nan)).
  { unfold filter. destruct (firstSample this) eqn:Hfs.
    - rewrite reset_spec by done.
      cbn [set_firstSample filterData filtValue order alpha firstSample].
      rewrite cascade_nan
        by (rewrite length_app, length_replicate, length_drop; lia).
      unfold set_filtValue, set_filterData. cbn.
      rewrite drop_app_length'; [done|by rewrite length_replicate].
    - rewrite cascade_nan by lia.
      unfold set_filtValue, set_filterData. cbn. by rewrite Hfs. }
  rewrite E. cbn [fst snd filterData].
  split; [done|]. split.
  - rewrite take_app_length'; [done|by rewrite length_replicate].
  - apply filter_samples_nan; cbn [firstSample order filterData]; try done.
    + rewrite length_app, length_replicate, length_drop. lia.
    + apply lookup_seeded. lia.
Qed.

Lemma nan_is_absorbing_witness :
  snd (filter_samples (fst (filter running_filter F32.nan)) [f32_3; f32_7])
  = [F32.nan; F32.nan].
Proof.
  assert (H1 : 1 <= order running_filter) by (vm_compute; discriminate).
  assert (H2 : (Z.to_nat (order running_filter)
                <= length (filterData running_filter))%nat)
    by (vm_compute; lia).
  exact (proj2 (proj2 (nan_is_absorbing running_filter [f32_3; f32_7] H1 H2))).
Defined.

End Steady.

(** ** printFloat: buffer accesses *)

Lemma buf_store_in (buf : list Z) (i c : Z) :
  0 <= i < Z.of_nat (length buf) ->
  buf_store buf i c = Some (<[Z.to_nat i := c]> buf).
Proof.
  intros Hi. unfold buf_store.
  replace (0 <=? i) with true by (symmetry; apply Z.leb_le; lia).
  by replace (i <? Z.of_nat (length buf)) with true
    by (symmetry; apply Z.ltb_lt; lia).
Qed.

Lemma buf_store_out (buf : list Z) (i c : Z) :
  Z.of_nat (length buf) <= i -> buf_store buf i c = None.
Proof.
  intros Hi. unfold buf_store.
  replace (i <? Z.of_nat (length buf)) with false
    by (symmetry; apply Z.ltb_ge; lia).
  by rewrite andb_false_r.
Qed.

Lemma buf_load_nat (buf : list Z) (i : nat) :
  buf_load buf (Z.of_nat i) = buf !! i.
Proof.
  unfold buf_load.
  replace (0 <=? Z.of_nat i) with true by (symmetry; apply Z.leb_le; lia).
  by rewrite Nat2Z.id.
Qed.

Lemma print_digits_ok (dp : float) (scan : nat) :
  forall (j v : Z) (buf : list Z),
    (scan <= length buf)%nat ->
    exists buf',
      print_digits scan j dp v buf = Some buf' /\
      length buf' = length buf /\
      forall k, (scan <= k)%nat -> buf' !! k = buf !! k.
Proof.
  induction scan as [|i IH]; intros j v buf Hlen.
  - by exists buf.
  - cbn [print_digits].
    destruct (F32.eqb (F32.of_int j) dp && negb (F32.eqb dp (F32.of_int 0)));
      rewrite buf_store_in by lia; rewrite Nat2Z.id;
      match goal with
      | |- context [print_digits i ?j' dp ?v' ?b] =>
          destruct (IH j' v' b) as (buf' & E & Hl & Hk);
          [rewrite length_insert; lia|]
      end;
      exists buf'; (split; [exact E|]);
      (split; [by rewrite Hl, length_insert|]);
      intros k Hk'; rewrite Hk by lia; apply list_lookup_insert_ne; lia.
Qed.

Lemma blank_zeros_ok (iters : nat) :
  forall (i : nat) (buf : list Z),
    (i + iters < length buf)%nat ->
    exists buf',
      blank_zeros iters (Z.of_nat i) buf = Some buf' /\
      length buf' = length buf /\
      forall k, (k < i \/ i + iters <= k)%nat -> buf' !! k = buf !! k.
Proof.
  induction iters as [|iters IH]; intros i buf Hlen.
  - by exists buf.
  - cbn [blank_zeros].
    replace (Z.of_nat i + 1) with (Z.of_nat (S i)) by lia.
    rewrite !buf_load_nat.
    destruct (lookup_lt_is_Some_2 buf (S i)) as [c1 ->]; [lia|].
    destruct ((c1 =? chr_comma) || (c1 =? 0)); [by exists buf|].
    destruct (lookup_lt_is_Some_2 buf i) as [c0 ->]; [lia|].
    destruct (c0 =? chr_0); [|by exists buf].
    rewrite buf_store_in by lia. rewrite Nat2Z.id.
    destruct (IH (S i) (<[i:=chr_space]> buf)) as (buf' & E & Hl & Hk);
      [rewrite length_insert; lia|].
    exists buf'. split; [exact E|]. split; [by rewrite Hl, length_insert|].
    intros k Hk'. rewrite Hk by lia. apply list_lookup_insert_ne. lia.
Qed.

Lemma sign_index_ok (rest : list Z) :
  forall (idx : Z) (k : nat) (c : Z),
    rest !! k = Some c -> c <> chr_space ->
    exists r, sign_index rest idx = Some r /\ idx <= r <= idx + Z.of_nat k.
Proof.
  induction rest as [|c0 rest IH]; intros idx k c Hk Hc; [done|].
  cbn [sign_index]. destruct (Z.eqb_spec c0 chr_space) as [->|Hne].
  - destruct k as [|k]; [simpl in Hk; congruence|].
    destruct (IH (idx + 1) k c Hk Hc) as (r & E & Hr).
    exists r. split; [exact E|lia].
  - exists idx. split; [done|lia].
Qed.

Section PrintFloat_bounds.

Variable scaled_int : float -> float -> Z.

Lemma maxLen_int (maxLen : Z) :
  1 <= maxLen < 2 ^ 15 ->
  Z.to_nat (to_int32 (to_uint32 (maxLen - 1)) + 1) = Z.to_nat maxLen /\
  Z.to_nat (to_uint32 (maxLen - 1)) = (Z.to_nat maxLen - 1)%nat.
Proof.
  intros Hm.
  rewrite to_uint32_small, to_int32_small by lia. lia.
Qed.

(** [printFloat] writes the terminator at index [maxLen], so it needs a
    buffer of more than [maxLen] characters: with a shorter one its first
    write is outside the buffer, as in the two calls of the report that
    pass the 12-character [floatOutputBuffer] with [maxLen = 12]. With a
    buffer long enough every access is inside it, the scan for the sign
    position ends, the result has the terminator at index [maxLen], and
    nothing behind it is touched. *)
Theorem printFloat_needs_maxLen_plus_1
    (buf : list Z) (value dp : float) (maxLen : Z) :
  1 <= maxLen < 2 ^ 15 ->
  (Z.of_nat (length buf) <= maxLen ->
   printFloat scaled_int buf value dp maxLen = None) /\
  (maxLen < Z.of_nat (length buf) ->
   exists out,
     printFloat scaled_int buf value dp maxLen = Some out /\
     length out = length buf /\
     out !! Z.to_nat maxLen = Some 0 /\
     forall k, (Z.to_nat maxLen < k)%nat -> out !! k = buf !! k) /\
  (length buf = 12%nat -> printFloat scaled_int buf value dp 12 = None).
Proof.
  intros Hm.
  assert (Hshort : Z.of_nat (length buf) <= maxLen ->
                   printFloat scaled_int buf value dp maxLen = None).
  { intros Hlen. unfold printFloat. by rewrite buf_store_out. }
  split; [exact Hshort|]. split.
  - intros Hlen. unfold printFloat.
    destruct (maxLen_int maxLen Hm) as [-> ->].
    rewrite buf_store_in by lia.
    set (m := Z.to_nat maxLen) in *.
    set (b0 := <[m:=0]> buf).
    assert (Hb0 : length b0 = length buf) by apply length_insert.
    destruct (print_digits_ok dp m 0
                (scaled_int (if F32.ltb value (F32.of_int 0)
                             then F32.neg value else value) dp) b0)
      as (b1 & -> & Hl1 & Hk1); [lia|].
    destruct (blank_zeros_ok (m - 1) 0 b1) as (b2 & E2 & Hl2 & Hk2); [lia|].
    change (Z.of_nat 0) with 0 in E2. rewrite E2.
    assert (Hnul : b2 !! m = Some 0).
    { rewrite Hk2, Hk1 by lia. apply list_lookup_insert_eq. lia. }
    assert (Hrest : forall k, (m < k)%nat -> b2 !! k = buf !! k).
    { intros k Hk. rewrite Hk2, Hk1 by lia.
      apply list_lookup_insert_ne. lia. }
    destruct (F32.ltb value (F32.of_int 0)).
    + destruct (sign_index_ok (drop 1 b2) 0 (m - 1) 0) as (idx & -> & Hidx);
        [rewrite lookup_drop; by replace (1 + (m - 1))%nat with m by lia
        |done|].
      rewrite buf_store_in by lia.
      eexists. split; [done|].
      split; [rewrite length_insert; lia|]. split.
      * rewrite list_lookup_insert_ne by lia. exact Hnul.
      * intros k Hk. rewrite list_lookup_insert_ne by lia. by apply Hrest.
    + exists b2. repeat split; try done. lia.
  - intros H12. unfold printFloat. rewrite buf_store_out; [done|lia].
Qed.

End PrintFloat_bounds.

Lemma printFloat_needs_maxLen_plus_1_witness :
  printFloat (fun _ _ => 12345) (replicate 12 0) (F32.of_int (-5))
    (F32.of_int 3) 12 = None.
Proof.
  apply (printFloat_needs_maxLen_plus_1 (fun _ _ => 12345) (replicate 12 0)
           (F32.of_int (-5)) (F32.of_int 3) 12); simpl; lia.
Defined.

(** ** Integers as binary32 numbers *)

Lemma iter_xO_value (p q : positive) :
  Zpos (Pos.iter xO p q) = Zpos p * 2 ^ Zpos q.
Proof.
  induction q as [|q IH] using Pos.peano_ind; [simpl; lia|].
  rewrite Pos.iter_succ, Pos2Z.inj_succ, Z.pow_succ_r by lia.
  rewrite Pos2Z.inj_xO, IH. lia.
Qed.

(** The binary32 image of a positive integer below [2^24]: its mantissa is
    the integer shifted left to 24 digits. *)
Lemma of_int_pos_form (p : positive) :
  Zpos p < 2 ^ 24 ->
  exists m e,
    F32.of_int (Zpos p) = S754_finite false m e /\
    e = Zpos (digits2_pos p) - 24 /\ e <= 0 /\
    Zpos m = Zpos p * 2 ^ (- e).
Proof.
  intros Hp.
  pose proof (digits2_pos_lower p) as Hd.
  assert (Hd24 : Zpos (digits2_pos p) <= 24).
  { destruct (Z.le_gt_cases (Zpos (digits2_pos p)) 24) as [|Hgt]; [done|].
    assert (2 ^ 24 <= 2 ^ (Zpos (digits2_pos p) - 1))
      by (apply Z.pow_le_mono_r; lia).
    lia. }
  unfold F32.of_int, binary_normalize, binary_round.
  replace (fexp F32.prec F32.emax (Zpos (digits2_pos p) + 0))
    with (Zpos (digits2_pos p) - 24)
    by (unfold fexp, emin, F32.prec, F32.emax; lia).
  unfold shl_align.
  destruct (Zpos (digits2_pos p) - 24 - 0) as [|q|q] eqn:E; try lia.
  - rewrite round_aux_exact by lia. exists p, 0.
    repeat split; try lia.
  - rewrite round_aux_exact; [| |lia].
    + exists (Pos.iter xO p q), (Zpos (digits2_pos p) - 24).
      repeat split; try lia.
      rewrite iter_xO_value. f_equal. f_equal. lia.
    + rewrite digits2_pos_iter. lia.
Qed.

Lemma eqb_finite_true (m1 m2 : positive) (e1 e2 : Z) :
  F32.eqb (S754_finite false m1 e1) (S754_finite false m2 e2) = true ->
  e1 = e2 /\ m1 = m2.
Proof.
  unfold F32.eqb, SFeqb, SFcompare.
  destruct (Z.compare_spec e1 e2) as [->|?|?]; try discriminate.
  destruct (Pos.compare_cont Eq m1 m2) eqn:E; try discriminate.
  intros _. split; [done|].
  apply Pos.compare_eq. exact E.
Qed.

Lemma eqb_finite_refl (m : positive) (e : Z) :
  F32.eqb (S754_finite false m e) (S754_finite false m e) = true.
Proof.
  unfold F32.eqb, SFeqb, SFcompare.
  rewrite Z.compare_refl. change (Pos.compare_cont Eq m m) with (m ?= m)%positive.
  by rewrite Pos.compare_refl.
Qed.

(** On integers below [2^24] the comparison [(float)j == (float)d] is the
    comparison of the integers. *)
Lemma of_int_eqb (j d : Z) :
  0 <= j < 2 ^ 24 -> 0 <= d < 2 ^ 24 ->
  F32.eqb (F32.of_int j) (F32.of_int d) = (j =? d).
Proof.
  intros Hj Hd. destruct (Z.eqb_spec j d) as [->|Hne].
  - destruct d as [|p|p]; [done| |lia].
    destruct (of_int_pos_form p) as (m & e & -> & _); [lia|].
    apply eqb_finite_refl.
  - destruct j as [|p|p], d as [|q|q]; try lia.
    + destruct (of_int_pos_form q) as (m & e & -> & _); [lia|done].
    + destruct (of_int_pos_form p) as (m & e & -> & _); [lia|done].
    + destruct (of_int_pos_form p) as (m1 & e1 & -> & He1 & _ & Hm1); [lia|].
      destruct (of_int_pos_form q) as (m2 & e2 & -> & He2 & Hle & Hm2); [lia|].
      destruct (F32.eqb (S754_finite false m1 e1) (S754_finite false m2 e2))
        eqn:E; [|done].
      apply eqb_finite_true in E as [-> ->]. exfalso. apply Hne.
      rewrite Hm1 in Hm2.
      assert (0 < 2 ^ (- e2)) by (apply Z.pow_pos_nonneg; lia).
      apply Z.mul_reg_r in Hm2; [done|lia].
Qed.

(** ** printFloat: the digits *)

Lemma digit_zero_small (n e : Z) :
  0 <= e -> 0 <= n < 10 ^ (e + 1) -> (n / 10 ^ e) mod 10 = 0 -> n < 10 ^ e.
Proof.
  intros He Hn Hz.
  assert (Hp : 0 < 10 ^ e) by (apply Z.pow_pos_nonneg; lia).
  assert (Hq : 0 <= n / 10 ^ e < 10).
  { split; [apply Z.div_pos; lia|].
    apply Z.div_lt_upper_bound; [lia|].
    replace (e + 1) with (Z.succ e) in Hn by lia.
    rewrite Z.pow_succ_r in Hn by lia. lia. }
  rewrite Z.mod_small in Hz by lia.
  apply Z.div_small_iff in Hz; lia.
Qed.

Lemma digit_nonzero_large (n e : Z) :
  0 <= e -> 0 <= n -> (n / 10 ^ e) mod 10 <> 0 -> 10 ^ e <= n.
Proof.
  intros He Hn Hz.
  destruct (Z.le_gt_cases (10 ^ e) n) as [|Hlt]; [done|].
  rewrite Z.div_small in Hz by lia. done.
Qed.

Lemma digit_chr_range (n e : Z) :
  chr_0 <= chr_0 + (n / 10 ^ e) mod 10 < chr_0 + 10.
Proof. pose proof (Z.mod_pos_bound (n / 10 ^ e) 10). lia. Qed.

Section Digits.

Variables (d n : Z).
Hypothesis Hd : 0 <= d < 2 ^ 15.
Hypothesis Hn : 0 <= n.

Lemma point_test (j : Z) :
  0 <= j < 2 ^ 24 ->
  F32.eqb (F32.of_int j) (F32.of_int d) && negb (F32.eqb (F32.of_int d) (F32.of_int 0))
  = is_point d j.
Proof.
  intros Hj. rewrite !of_int_eqb by lia. unfold is_point.
  apply andb_comm.
Qed.

Lemma print_digits_spec (scan : nat) :
  forall (j0 : Z) (buf buf' : list Z),
    (scan <= length buf)%nat -> 0 <= j0 -> j0 + Z.of_nat scan < 2 ^ 24 ->
    print_digits scan j0 (F32.of_int d) (n / 10 ^ digit_exp d j0) buf
    = Some buf' ->
    forall i : nat, (i < scan)%nat ->
      buf' !! i = Some (plain_chr d n (j0 + Z.of_nat scan - 1 - Z.of_nat i)).
Proof.
  induction scan as [|i0 IH]; intros j0 buf buf' Hlen Hj0 Hj E i Hi; [lia|].
  cbn [print_digits] in E. rewrite point_test in E by lia.
  assert (Hv : 0 <= n / 10 ^ digit_exp d j0)
    by (apply Z.div_pos; [lia|apply Z.pow_pos_nonneg; unfold digit_exp;
        [lia|destruct (negb (d =? 0) && (d <? j0)) eqn:B; [|lia];
             apply andb_prop in B as [_ B]; apply Z.ltb_lt in B; lia]]).
  assert (He : 0 <= digit_exp d j0).
  { unfold digit_exp. destruct (negb (d =? 0) && (d <? j0)) eqn:B; [|lia].
    apply andb_prop in B as [_ B]. apply Z.ltb_lt in B. lia. }
  destruct (is_point d j0) eqn:Hpt.
  - (* the decimal point *)
    rewrite buf_store_in, Nat2Z.id in E by lia.
    assert (Hnext : digit_exp d (j0 + 1) = digit_exp d j0).
    { unfold is_point in Hpt. apply andb_prop in Hpt as [H1 H2].
      apply Z.eqb_eq in H2. subst j0. unfold digit_exp. rewrite H1.
      replace (d <? d + 1) with true by (symmetry; apply Z.ltb_lt; lia).
      replace (d <? d) with false by (symmetry; apply Z.ltb_ge; lia).
      simpl. lia. }
    rewrite <- Hnext in E.
    destruct (decide (i = i0)) as [->|Hne].
    + destruct (print_digits_ok (F32.of_int d) i0 (j0 + 1)
                  (n / 10 ^ digit_exp d (j0 + 1)) (<[i0:=chr_comma]> buf))
        as (b & Eb & _ & Hk); [rewrite length_insert; lia|].
      rewrite Eb in E. injection E as <-.
      rewrite Hk by lia. rewrite list_lookup_insert_eq by lia.
      unfold plain_chr.
      replace (j0 + Z.of_nat (S i0) - 1 - Z.of_nat i0) with j0 by lia.
      by rewrite Hpt.
    + match type of E with
      | print_digits _ _ _ _ ?b = _ =>
          rewrite (IH (j0 + 1) b buf') with (i := i);
            [do 2 f_equal; lia|rewrite length_insert; lia|lia|lia|exact E|lia]
      end.
  - (* a digit *)
    rewrite buf_store_in, Nat2Z.id in E by lia.
    rewrite Z.rem_mod_nonneg, Z.quot_div_nonneg in E by lia.
    assert (Hnext : digit_exp d (j0 + 1) = digit_exp d j0 + 1).
    { unfold is_point in Hpt. unfold digit_exp.
      destruct (Z.eqb_spec d 0) as [->|Hd0]; cbn [negb andb] in *; [lia|].
      apply Z.eqb_neq in Hpt.
      destruct (Z.ltb_spec d (j0 + 1)), (Z.ltb_spec d j0); lia. }
    rewrite Z.div_div in E by (try apply Z.pow_pos_nonneg; lia).
    replace (10 ^ digit_exp d j0 * 10) with (10 ^ digit_exp d (j0 + 1)) in E
      by (rewrite Hnext; replace (digit_exp d j0 + 1)
            with (Z.succ (digit_exp d j0)) by lia;
          rewrite Z.pow_succ_r by lia; lia).
    destruct (decide (i = i0)) as [->|Hne].
    + destruct (print_digits_ok (F32.of_int d) i0 (j0 + 1)
                  (n / 10 ^ digit_exp d (j0 + 1))
                  (<[i0:=(n / 10 ^ digit_exp d j0) mod 10 + 48]> buf))
        as (b & Eb & _ & Hk); [rewrite length_insert; lia|].
      rewrite Eb in E. injection E as <-.
      rewrite Hk by lia. rewrite list_lookup_insert_eq by lia.
      unfold plain_chr.
      replace (j0 + Z.of_nat (S i0) - 1 - Z.of_nat i0) with j0 by lia.
      rewrite Hpt. unfold chr_0. f_equal. lia.
    + match type of E with
      | print_digits _ _ _ _ ?b = _ =>
          rewrite (IH (j0 + 1) b buf') with (i := i);
            [do 2 f_equal; lia|rewrite length_insert; lia|lia|lia|exact E|lia]
      end.
Qed.

End Digits.

(** ** printFloat: leading zeros *)

Lemma digit_exp_mono (d j j' : Z) :
  0 <= d -> j' <= j -> digit_exp d j' <= digit_exp d j.
Proof.
  intros Hd Hj. unfold digit_exp.
  destruct (Z.eqb_spec d 0); cbn [negb andb]; [lia|].
  destruct (Z.ltb_spec d j'), (Z.ltb_spec d j); lia.
Qed.

Lemma digit_exp_nonneg (d j : Z) : 0 <= d -> 0 <= j -> 0 <= digit_exp d j.
Proof.
  intros Hd Hj. unfold digit_exp.
  destruct (Z.eqb_spec d 0); cbn [negb andb]; [lia|].
  destruct (Z.ltb_spec d j); lia.
Qed.

Lemma plain_chr_cases (d n j : Z) :
  (is_point d j = true /\ plain_chr d n j = chr_comma) \/
  (is_point d j = false /\
   plain_chr d n j = chr_0 + (n / 10 ^ digit_exp d j) mod 10 /\
   chr_0 <= plain_chr d n j < chr_0 + 10).
Proof.
  unfold plain_chr. destruct (is_point d j); [by left|right].
  repeat split; try done; apply digit_chr_range.
Qed.

Lemma rendered_plain (m d n j : Z) :
  may_blank m d j && (n <? 10 ^ digit_exp d j) = false ->
  rendered_chr m d n (m - 1 - j) = plain_chr d n j.
Proof.
  intros H. unfold rendered_chr, plain_chr. cbv zeta.
  replace (m - 1 - (m - 1 - j)) with j by lia.
  by rewrite H.
Qed.

Lemma rendered_blank (m d n j : Z) :
  is_point d j = false ->
  may_blank m d j = true -> n < 10 ^ digit_exp d j ->
  rendered_chr m d n (m - 1 - j) = chr_space.
Proof.
  intros Hp Hb Hn. unfold rendered_chr. cbv zeta.
  replace (m - 1 - (m - 1 - j)) with j by lia.
  rewrite Hp, Hb.
  by replace (n <? 10 ^ digit_exp d j) with true
    by (symmetry; by apply Z.ltb_lt).
Qed.

Section Blank.

Variables (M : nat) (m d n : Z).
Hypothesis Hm : m = Z.of_nat M.
Hypothesis HM : (1 <= M)%nat.
Hypothesis Hd : 0 <= d.
Hypothesis Hn : 0 <= n.

(** No place at or right of [j] is blanked once one of these holds. *)
Lemma no_blank_from (j : Z) :
  (negb (d =? 0) && (j <=? d + 1) && (d <? m) = true \/
   10 ^ digit_exp d j <= n) ->
  forall j', j' <= j ->
    may_blank m d j' && (n <? 10 ^ digit_exp d j') = false.
Proof.
  intros [H|H] j' Hj'.
  - apply andb_prop in H as [H H3]. apply andb_prop in H as [H1 H2].
    apply Z.leb_le in H2. apply Z.ltb_lt in H3.
    unfold may_blank. rewrite negb_true_iff in H1. rewrite H1.
    replace (m <=? d) with false by (symmetry; apply Z.leb_gt; lia).
    replace (d + 1 <? j') with false by (symmetry; apply Z.ltb_ge; lia).
    by rewrite andb_false_r.
  - replace (n <? 10 ^ digit_exp d j') with false; [apply andb_false_r|].
    symmetry. apply Z.ltb_ge.
    pose proof (digit_exp_mono d j j' Hd Hj').
    assert (10 ^ digit_exp d j' <= 10 ^ digit_exp d j); [|lia].
    destruct (Z.le_gt_cases 0 (digit_exp d j')) as [Hz0|Hz0].
    + apply Z.pow_le_mono_r; lia.
    + rewrite Z.pow_neg_r by lia.
      destruct (Z.le_gt_cases 0 (digit_exp d j)) as [Hz1|Hz1];
        [apply Z.pow_nonneg; lia|rewrite Z.pow_neg_r; lia].
Qed.

Lemma blank_zeros_spec (iters : nat) :
  forall (i : nat) (B : list Z),
    (i + iters = M - 1)%nat -> (M < length B)%nat ->
    (forall k, (i <= k < M)%nat ->
       B !! k = Some (plain_chr d n (m - 1 - Z.of_nat k))) ->
    n < 10 ^ (digit_exp d (m - 1 - Z.of_nat i) + 1) ->
    (d = 0 \/ m <= d \/ d < m - 1 - Z.of_nat i \/ i = 0%nat) ->
    exists B',
      blank_zeros iters (Z.of_nat i) B = Some B' /\
      forall k, (i <= k < M)%nat ->
        B' !! k = Some (rendered_chr m d n (Z.of_nat k)).
Proof.
  induction iters as [|iters IH]; intros i B Hi HB Hplain Hinv1 Hinv2.
  - exists B. split; [done|]. intros k Hk.
    assert (k = i) as -> by lia. rewrite Hplain by lia.
    replace (Z.of_nat i) with (m - 1 - 0) at 2 by lia.
    rewrite rendered_plain; [do 2 f_equal; lia|].
    unfold may_blank. by replace (1 <=? 0) with false by done.
  - cbn [blank_zeros].
    replace (Z.of_nat i + 1) with (Z.of_nat (S i)) by lia.
    rewrite !buf_load_nat, !Hplain by lia.
    set (j := m - 1 - Z.of_nat i) in *.
    replace (m - 1 - Z.of_nat (S i)) with (j - 1) by lia.
    assert (Hj : 1 <= j) by lia.
    (* the result agrees with the plain digits from [i] on *)
    assert (Hstop : (negb (d =? 0) && (j <=? d + 1) && (d <? m) = true \/
                     10 ^ digit_exp d j <= n) ->
                    forall k, (i <= k < M)%nat ->
                      B !! k = Some (rendered_chr m d n (Z.of_nat k))).
    { intros Hnb k Hk. rewrite Hplain by lia.
      replace (Z.of_nat k) with (m - 1 - (m - 1 - Z.of_nat k)) at 2 by lia.
      rewrite rendered_plain; [done|].
      apply (no_blank_from j Hnb). lia. }
    destruct (plain_chr_cases d n (j - 1)) as [[Hp1 ->]|(Hp1 & _ & Hr1)].
    { (* the next character is the point *)
      rewrite Z.eqb_refl. cbn [orb].
      exists B. split; [done|]. apply Hstop. left.
      unfold is_point in Hp1. apply andb_prop in Hp1 as [H1 H2].
      apply Z.eqb_eq in H2. rewrite H1.
      replace (j <=? d + 1) with true by (symmetry; apply Z.leb_le; lia).
      by replace (d <? m) with true by (symmetry; apply Z.ltb_lt; lia). }
    replace ((plain_chr d n (j - 1) =? chr_comma) || (plain_chr d n (j - 1) =? 0))
      with false
      by (symmetry; apply orb_false_intro; apply Z.eqb_neq;
          unfold chr_comma, chr_0 in *; lia).
    destruct (plain_chr_cases d n j) as [[Hp0 ->]|(Hp0 & E0 & Hr0)].
    { (* the point itself *)
      replace (chr_comma =? chr_0) with false by done.
      exists B. split; [done|]. apply Hstop. left.
      unfold is_point in Hp0. apply andb_prop in Hp0 as [H1 H2].
      apply Z.eqb_eq in H2. rewrite H1.
      replace (j <=? d + 1) with true by (symmetry; apply Z.leb_le; lia).
      by replace (d <? m) with true by (symmetry; apply Z.ltb_lt; lia). }
    assert (He : 0 <= digit_exp d j) by (apply digit_exp_nonneg; lia).
    destruct (Z.eqb_spec (plain_chr d n j) chr_0) as [Hz|Hnz].
    + (* a zero: blank it and go on *)
      rewrite buf_store_in, Nat2Z.id by lia.
      assert (Hdigit : (n / 10 ^ digit_exp d j) mod 10 = 0) by lia.
      assert (Hsmall : n < 10 ^ digit_exp d j)
        by (apply digit_zero_small; [lia|lia|exact Hdigit]).
      assert (Hnp1 : d = 0 \/ j - 1 <> d).
      { unfold is_point in Hp1.
        destruct (Z.eqb_spec d 0); [by left|right].
        cbn [negb andb] in Hp1. by apply Z.eqb_neq in Hp1. }
      assert (Hnp0 : d = 0 \/ j <> d).
      { unfold is_point in Hp0.
        destruct (Z.eqb_spec d 0); [by left|right].
        cbn [negb andb] in Hp0. by apply Z.eqb_neq in Hp0. }
      assert (Hmay : d = 0 \/ m <= d \/ d + 1 < j) by lia.
      assert (Hmb : may_blank m d j = true).
      { unfold may_blank.
        replace (1 <=? j) with true by (symmetry; apply Z.leb_le; lia).
        destruct Hmay as [->|[H|H]].
        - done.
        - replace (m <=? d) with true by (symmetry; apply Z.leb_le; lia).
          by rewrite orb_true_r.
        - replace (d + 1 <? j) with true by (symmetry; apply Z.ltb_lt; lia).
          by rewrite !orb_true_r. }
      assert (Hexp : digit_exp d (j - 1) + 1 = digit_exp d j).
      { unfold digit_exp.
        destruct (Z.eqb_spec d 0); cbn [negb andb]; [lia|].
        destruct (Z.ltb_spec d (j - 1)), (Z.ltb_spec d j); lia. }
      destruct (IH (S i) (<[i:=chr_space]> B)) as (B' & E' & HB');
        [lia|rewrite length_insert; lia| | |lia|].
      * intros k Hk. rewrite list_lookup_insert_ne by lia.
        apply Hplain. lia.
      * replace (m - 1 - Z.of_nat (S i)) with (j - 1) by lia.
        by rewrite Hexp.
      * exists B'. split; [exact E'|]. intros k Hk.
        destruct (decide (k = i)) as [->|Hne]; [|apply HB'; lia].
        destruct (blank_zeros_ok iters (S i) (<[i:=chr_space]> B))
          as (B'' & E'' & _ & Hfr); [rewrite length_insert; lia|].
        rewrite E'' in E'. injection E' as ->.
        rewrite Hfr by lia. rewrite list_lookup_insert_eq by lia.
        replace (Z.of_nat i) with (m - 1 - j) by lia.
        by rewrite rendered_blank.
    + (* a digit other than zero: stop *)
      exists B. split; [done|]. apply Hstop. right.
      apply digit_nonzero_large; [lia|lia|]. unfold chr_0 in *. lia.
Qed.

End Blank.

(** ** printFloat: the text *)

Lemma sign_index_spec (rest : list Z) :
  forall idx r : Z,
    sign_index rest idx = Some r ->
    idx <= r /\
    (forall t : nat, Z.of_nat t < r - idx -> rest !! t = Some chr_space) /\
    exists c, rest !! Z.to_nat (r - idx) = Some c /\ c <> chr_space.
Proof.
  induction rest as [|c0 rest IH]; intros idx r E; [done|].
  cbn [sign_index] in E. destruct (Z.eqb_spec c0 chr_space) as [->|Hne].
  - destruct (IH _ _ E) as (Hle & Hsp & c & Hc & Hcn).
    split; [lia|]. split.
    + intros [|t] Ht; [done|]. cbn. apply Hsp. lia.
    + exists c. split; [|done].
      replace (Z.to_nat (r - idx)) with (S (Z.to_nat (r - (idx + 1)))) by lia.
      exact Hc.
  - injection E as <-. split; [lia|]. split; [intros t Ht; lia|].
    exists c0. by rewrite Z.sub_diag.
Qed.

Lemma rendered_space_iff (m d n i : Z) :
  rendered_chr m d n i = chr_space <->
  is_point d (m - 1 - i) = false /\ may_blank m d (m - 1 - i) = true /\
  n < 10 ^ digit_exp d (m - 1 - i).
Proof.
  unfold rendered_chr. cbv zeta.
  destruct (is_point d (m - 1 - i)); [split; [done|by intros [? _]]|].
  destruct (may_blank m d (m - 1 - i)); cbn [andb].
  - destruct (Z.ltb_spec n (10 ^ digit_exp d (m - 1 - i))).
    + by split.
    + split; [|lia].
      pose proof (digit_chr_range n (digit_exp d (m - 1 - i))).
      unfold chr_0, chr_space in *. lia.
  - split; [|by intros (_ & ? & _)].
    pose proof (digit_chr_range n (digit_exp d (m - 1 - i))).
    unfold chr_0, chr_space in *. lia.
Qed.

(** The blanks form a prefix of the field. *)
Lemma rendered_space_prefix (m d n i : Z) :
  0 <= d -> 1 <= i < m ->
  rendered_chr m d n i = chr_space -> rendered_chr m d n (i - 1) = chr_space.
Proof.
  intros Hd Hi H. apply rendered_space_iff in H as (Hp & Hb & Hn).
  apply rendered_space_iff.
  replace (m - 1 - (i - 1)) with (m - 1 - i + 1) by lia.
  set (j := m - 1 - i) in *.
  unfold may_blank in Hb. apply andb_prop in Hb as [Hj Hb].
  apply Z.leb_le in Hj.
  assert (Hc : d = 0 \/ m <= d \/ d + 1 < j).
  { apply orb_prop in Hb as [Hb|Hb]; [apply orb_prop in Hb as [Hb|Hb]|].
    - apply Z.eqb_eq in Hb. by left.
    - apply Z.leb_le in Hb. right. by left.
    - apply Z.ltb_lt in Hb. right. by right. }
  split; [|split].
  - unfold is_point. destruct (Z.eqb_spec d 0); [done|]. cbn [negb andb].
    apply Z.eqb_neq. lia.
  - unfold may_blank.
    replace (1 <=? j + 1) with true by (symmetry; apply Z.leb_le; lia).
    destruct Hc as [->|[Hc|Hc]]; [done| |].
    + replace (m <=? d) with true by (symmetry; apply Z.leb_le; lia).
      by rewrite orb_true_r.
    + replace (d + 1 <? j + 1) with true by (symmetry; apply Z.ltb_lt; lia).
      by rewrite !orb_true_r.
  - pose proof (digit_exp_mono d (j + 1) j Hd ltac:(lia)) as Hmono.
    pose proof (digit_exp_nonneg d j Hd ltac:(lia)) as Hnn.
    assert (10 ^ digit_exp d j <= 10 ^ digit_exp d (j + 1))
      by (apply Z.pow_le_mono_r; lia).
    lia.
Qed.

Section PrintFloat_text.

Variable scaled_int : float -> float -> Z.

(** The buffer after the digit and blanking loops, for a magnitude [n]
    that fits the field. *)
Lemma printFloat_loops (buf : list Z) (d n maxLen : Z) :
  1 <= maxLen < 2 ^ 15 -> maxLen < Z.of_nat (length buf) ->
  0 <= d < 2 ^ 15 -> 0 <= n < 10 ^ digit_places maxLen d ->
  exists b1 b2,
    print_digits (Z.to_nat maxLen) 0 (F32.of_int d) n
      (<[Z.to_nat maxLen := 0]> buf) = Some b1 /\
    blank_zeros (Z.to_nat maxLen - 1) 0 b1 = Some b2 /\
    length b2 = length buf /\
    b2 !! Z.to_nat maxLen = Some 0 /\
    forall i, 0 <= i < maxLen ->
      b2 !! Z.to_nat i = Some (rendered_chr maxLen d n i).
Proof.
  intros Hm Hlen Hd Hn.
  set (M := Z.to_nat maxLen).
  set (b0 := <[M:=0]> buf).
  assert (Hb0 : length b0 = length buf) by apply length_insert.
  destruct (print_digits_ok (F32.of_int d) M 0 n b0)
    as (b1 & E1 & Hl1 & Hk1); [lia|].
  assert (Hplain : forall k : nat, (k < M)%nat ->
            b1 !! k = Some (plain_chr d n (maxLen - 1 - Z.of_nat k))).
  { intros k Hk.
    rewrite (print_digits_spec d n ltac:(lia) ltac:(lia) M 0 b0 b1) with (i := k);
      [do 2 f_equal; lia|lia|lia|lia| |lia].
    replace (digit_exp d 0) with 0; [by rewrite Z.pow_0_r, Z.div_1_r|].
    unfold digit_exp.
    replace (d <? 0) with false by (symmetry; apply Z.ltb_ge; lia).
    by rewrite andb_false_r. }
  destruct (blank_zeros_spec M maxLen d n ltac:(lia) ltac:(lia) ltac:(lia)
              ltac:(lia) (M - 1) 0 b1)
    as (b2 & E2 & Hr2); [lia|lia| | |by right; right; right|].
  - intros k Hk. apply Hplain. lia.
  - replace (maxLen - 1 - Z.of_nat 0) with (maxLen - 1) by lia.
    eapply Z.lt_le_trans; [apply Hn|].
    apply Z.pow_le_mono_r; [lia|].
    unfold digit_places, digit_exp.
    destruct (Z.eqb_spec d 0) as [->|Hd0]; cbn [negb andb]; [simpl; lia|].
    destruct (Z.leb_spec 1 d), (Z.ltb_spec d maxLen), (Z.ltb_spec d (maxLen - 1));
      cbn [andb]; lia.
  - change (Z.of_nat 0) with 0 in E2.
    destruct (blank_zeros_ok (M - 1) 0 b1) as (b2' & E2' & Hl2 & Hk2); [lia|].
    change (Z.of_nat 0) with 0 in E2'. rewrite E2 in E2'. injection E2' as <-.
    exists b1, b2. repeat split; try done; try lia.
    + rewrite Hk2, Hk1 by lia. apply list_lookup_insert_eq. lia.
    + intros i Hi. rewrite Hr2 by lia. do 2 f_equal. lia.
Qed.

(** For a value that is not negative and whose scaled magnitude [n] fits
    the field, [printFloat] fills the [maxLen] characters as follows,
    counting places [j] from the right: with [d] decimal places other than
    0 the place [j = d] holds the comma; the places right of it show the
    digits of [n] for [10^0 .. 10^(d-1)], the places left of it the digits
    for [10^d] upwards; a zero is replaced by a blank exactly when every
    digit at and left of it is zero ([n < 10^e]) and it is neither the last
    place nor, with a comma, the digit in front of the comma or anything
    behind it. *)
Theorem printFloat_text (buf : list Z) (value : float) (d maxLen : Z) :
  1 <= maxLen < 2 ^ 15 -> maxLen < Z.of_nat (length buf) ->
  0 <= d < 2 ^ 15 ->
  F32.ltb value (F32.of_int 0) = false ->
  0 <= scaled_int value (F32.of_int d) < 10 ^ digit_places maxLen d ->
  exists out,
    printFloat scaled_int buf value (F32.of_int d) maxLen = Some out /\
    out !! Z.to_nat maxLen = Some 0 /\
    (forall i, 0 <= i < maxLen ->
       out !! Z.to_nat i
       = Some (rendered_chr maxLen d (scaled_int value (F32.of_int d)) i)) /\
    out !! Z.to_nat (maxLen - 1)
    = Some (chr_0 + scaled_int value (F32.of_int d) mod 10) /\
    (1 <= d < maxLen -> out !! Z.to_nat (maxLen - 1 - d) = Some chr_comma).
Proof.
  intros Hm Hlen Hd Hpos Hn.
  destruct (printFloat_loops buf d (scaled_int value (F32.of_int d)) maxLen)
    as (b1 & b2 & E1 & E2 & Hl & Hnul & Hr); try done.
  exists b2. unfold printFloat. rewrite Hpos.
  destruct (maxLen_int maxLen Hm) as [-> ->].
  rewrite buf_store_in by lia. rewrite E1, E2.
  split; [done|]. split; [done|]. split; [exact Hr|]. split.
  - rewrite Hr by lia. f_equal.
    replace (maxLen - 1) with (maxLen - 1 - 0) at 1 by lia.
    rewrite rendered_plain by (unfold may_blank; by rewrite Z.leb_antisym).
    unfold plain_chr, is_point, digit_exp.
    replace (0 =? d) with (d =? 0) by apply Z.eqb_sym.
    replace (d <? 0) with false by (symmetry; apply Z.ltb_ge; lia).
    rewrite andb_negb_l, andb_false_r.
    by rewrite Z.pow_0_r, Z.div_1_r.
  - intros Hd'. rewrite Hr by lia. f_equal.
    unfold rendered_chr, is_point. cbv zeta.
    replace (maxLen - 1 - (maxLen - 1 - d)) with d by lia.
    rewrite Z.eqb_refl.
    by replace (d =? 0) with false by (symmetry; apply Z.eqb_neq; lia).
Qed.

(** For a negative value the text is that of its magnitude with one
    character replaced by ['-']: the character in front of the first
    character, from index 1 on, that is not a blank. When the magnitude
    leaves the first place blank the sign takes the place of a blank;
    when it does not, the sign is written at index 0 over the first
    character of the number. *)
Theorem printFloat_sign (buf : list Z) (value : float) (d maxLen : Z) :
  1 <= maxLen < 2 ^ 15 -> maxLen < Z.of_nat (length buf) ->
  0 <= d < 2 ^ 15 ->
  F32.ltb value (F32.of_int 0) = true ->
  0 <= scaled_int (F32.neg value) (F32.of_int d) < 10 ^ digit_places maxLen d ->
  exists out idx,
    printFloat scaled_int buf value (F32.of_int d) maxLen = Some out /\
    0 <= idx < maxLen /\
    out !! Z.to_nat idx = Some chr_minus /\
    (forall i, 0 <= i < maxLen -> i <> idx ->
       out !! Z.to_nat i
       = Some (rendered_chr maxLen d
                 (scaled_int (F32.neg value) (F32.of_int d)) i)) /\
    (forall t, 1 <= t <= idx ->
       rendered_chr maxLen d (scaled_int (F32.neg value) (F32.of_int d)) t
       = chr_space) /\
    (idx + 1 < maxLen ->
     rendered_chr maxLen d (scaled_int (F32.neg value) (F32.of_int d)) (idx + 1)
     <> chr_space) /\
    (rendered_chr maxLen d (scaled_int (F32.neg value) (F32.of_int d)) 0
     = chr_space ->
     rendered_chr maxLen d (scaled_int (F32.neg value) (F32.of_int d)) idx
     = chr_space) /\
    (rendered_chr maxLen d (scaled_int (F32.neg value) (F32.of_int d)) 0
     <> chr_space -> idx = 0).
Proof.
  intros Hm Hlen Hd Hneg Hn.
  set (n := scaled_int (F32.neg value) (F32.of_int d)) in *.
  destruct (printFloat_loops buf d n maxLen)
    as (b1 & b2 & E1 & E2 & Hl & Hnul & Hr); try done.
  unfold printFloat. rewrite Hneg. fold n.
  destruct (maxLen_int maxLen Hm) as [-> ->].
  rewrite buf_store_in by lia. rewrite E1, E2.
  destruct (sign_index_ok (drop 1 b2) 0 (Z.to_nat maxLen - 1) 0)
    as (idx & Eidx & Hidx);
    [rewrite lookup_drop;
     by replace (1 + (Z.to_nat maxLen - 1))%nat with (Z.to_nat maxLen) by lia
    |done|].
  rewrite Eidx.
  destruct (sign_index_spec _ _ _ Eidx) as (_ & Hsp & c & Hc & Hcn).
  rewrite Z.sub_0_r in Hc. rewrite lookup_drop in Hc.
  assert (Hblank : forall t, 1 <= t <= idx -> rendered_chr maxLen d n t = chr_space).
  { intros t Ht.
    pose proof (Hsp (Z.to_nat (t - 1)) ltac:(lia)) as H.
    rewrite lookup_drop in H.
    replace (1 + Z.to_nat (t - 1))%nat with (Z.to_nat t) in H by lia.
    rewrite Hr in H by lia. by injection H. }
  rewrite buf_store_in by lia.
  eexists _, idx. split; [done|]. split; [lia|]. split.
  { apply list_lookup_insert_eq. lia. }
  split.
  { intros i Hi Hne. rewrite list_lookup_insert_ne by lia. by apply Hr. }
  split; [exact Hblank|]. split.
  { intros Hnext Hsp'.
    replace (1 + Z.to_nat idx)%nat with (Z.to_nat (idx + 1)) in Hc by lia.
    rewrite Hr in Hc by lia. injection Hc as <-. done. }
  split.
  { intros H0. destruct (Z.eq_dec idx 0) as [->|Hne]; [done|].
    apply Hblank. lia. }
  intros H0. destruct (Z.eq_dec idx 0) as [|Hne]; [done|]. exfalso. apply H0.
  assert (Hpre : forall k : nat,
            Z.of_nat k < idx -> rendered_chr maxLen d n (idx - Z.of_nat k) = chr_space
            -> rendered_chr maxLen d n 0 = chr_space).
  { intros k. induction k as [|k IHk]; intros Hk Hs.
    - rewrite Z.sub_0_r in Hs.
      clear -Hs Hd Hidx Hm Hne.
      assert (Hgen : forall t : nat, Z.of_nat t <= idx ->
                rendered_chr maxLen d n (idx - Z.of_nat t) = chr_space).
      { induction t as [|t IHt]; intros Ht; [by rewrite Z.sub_0_r|].
        replace (idx - Z.of_nat (S t)) with (idx - Z.of_nat t - 1) by lia.
        apply rendered_space_prefix; [lia|lia|apply IHt; lia]. }
      specialize (Hgen (Z.to_nat idx) ltac:(lia)).
      by replace (idx - Z.of_nat (Z.to_nat idx)) with 0 in Hgen by lia.
    - apply IHk; [lia|]. apply Hblank. lia. }
  apply (Hpre 0%nat); [lia|]. rewrite Z.sub_0_r. apply Hblank. lia.
Qed.

End PrintFloat_text.

Lemma printFloat_text_witness :
  exists out,
    printFloat (fun _ _ => 12345) (replicate 13 0) (F32.of_int 5)
      (F32.of_int 3) 12 = Some out /\
    out !! 12%nat = Some 0 /\
    (forall i, 0 <= i < 12 ->
       out !! Z.to_nat i = Some (rendered_chr 12 3 12345 i)) /\
    out !! 11%nat = Some 0x35 /\
    (1 <= 3 < 12 -> out !! 8%nat = Some chr_comma).
Proof.
  apply (printFloat_text (fun _ _ => 12345) (replicate 13 0) (F32.of_int 5)
           3 12);
    [lia|simpl; lia|lia|reflexivity|vm_compute; split; [discriminate|reflexivity]].
Defined.

Lemma printFloat_sign_witness :
  exists out idx,
    printFloat (fun _ _ => 12345) (replicate 12 0) (F32.of_int (-5))
      (F32.of_int 2) 6 = Some out /\
    0 <= idx < 6 /\
    out !! Z.to_nat idx = Some chr_minus /\
    (forall i, 0 <= i < 6 -> i <> idx ->
       out !! Z.to_nat i = Some (rendered_chr 6 2 12345 i)) /\
    (forall t, 1 <= t <= idx -> rendered_chr 6 2 12345 t = chr_space) /\
    (idx + 1 < 6 -> rendered_chr 6 2 12345 (idx + 1) <> chr_space) /\
    (rendered_chr 6 2 12345 0 = chr_space ->
     rendered_chr 6 2 12345 idx = chr_space) /\
    (rendered_chr 6 2 12345 0 <> chr_space -> idx = 0).
Proof.
  apply (printFloat_sign (fun _ _ => 12345) (replicate 12 0)
           (F32.of_int (-5)) 2 6);
    [lia|simpl; lia|lia|reflexivity|vm_compute; split; [discriminate|reflexivity]].
Defined.

(** ** The configuration invariant *)

Section Invariant.

Import cEMAFilter.

Lemma filter_preserves (this : t) (v : float) :
  order (fst (filter this v)) = order this /\
  alpha (fst (filter this v)) = alpha this /\
  length (filterData (fst (filter this v))) = length (filterData this).
Proof.
  unfold filter.
  set (this' := if firstSample this
                then set_firstSample (reset this v) false else this).
  assert (H : order this' = order this /\ alpha this' = alpha this /\
              length (filterData this') = length (filterData this)).
  { subst this'. destruct (firstSample this); simpl;
      [by rewrite fill_length|done]. }
  destruct H as (Ho & Ha & Hl). clearbody this'.
  pose proof (cascade_length (alpha this') (Z.to_nat (order this')) 0
                (filterData this') v) as Hc.
  destruct (for_loop 0 _ _ (filterData this', v)) as [fd x].
  unfold set_filtValue, set_filterData.
  simpl in *. repeat split; try done. by rewrite Hc.
Qed.

(** Whatever sequence of [config], [reset] and [filter] calls an object
    goes through after its construction, and whatever their arguments, its
    [order] stays within [1 .. MAX_EMA_ORDER], its [alpha] strictly between
    0 and 1, and [filterData] keeps its ten elements: the loops of [reset]
    and [filter] never index outside the array. *)
Theorem reachable_is_well_configured (this : t) :
  reachable this ->
  1 <= order this <= MAX_EMA_ORDER /\
  F32.ltb (F32.of_int 0) (alpha this) = true /\
  F32.ltb (alpha this) (F32.of_int 1) = true /\
  length (filterData this) = Z.to_nat MAX_EMA_ORDER.
Proof.
  induction 1 as [mem Hlen|mem a o Hlen|this a o _ IH|this v _ IH|this v _ IH].
  - by repeat split.
  - unfold ctor2. rewrite config_accept by first [ reflexivity | by vm_compute ].
    by repeat split.
  - unfold config.
    destruct (0 <? o) eqn:E1; [|exact IH].
    destruct (o <=? MAX_EMA_ORDER) eqn:E2; [|exact IH].
    destruct (F32.ltb (F32.of_int 0) a) eqn:E3; [|exact IH].
    destruct (F32.ltb a (F32.of_int 1)) eqn:E4; [|exact IH].
    cbn [andb set_order set_alpha order alpha filterData].
    apply Z.ltb_lt in E1. apply Z.leb_le in E2.
    destruct IH as (_ & _ & _ & Hl). repeat split; try done; lia.
  - destruct IH as (Ho & H0 & H1 & Hl).
    unfold reset, set_filterData. simpl.
    split; [done|]. split; [done|]. split; [done|]. by rewrite fill_length.
  - destruct (filter_preserves this v) as (-> & -> & ->). exact IH.
Qed.

Lemma reachable_is_well_configured_witness :
  1 <= order running_filter <= MAX_EMA_ORDER /\
  F32.ltb (F32.of_int 0) (alpha running_filter) = true /\
  F32.ltb (alpha running_filter) (F32.of_int 1) = true /\
  length (filterData running_filter) = Z.to_nat MAX_EMA_ORDER.
Proof.
  apply (reachable_is_well_configured running_filter).
  apply reach_filter, reach_ctor. reflexivity.
Defined.

End Invariant.

Lemma loop_filter_configuration (g : Globals) (wire : list Z) :
  cEMAFilter.order (FlowFilter (loop g wire)) = cEMAFilter.order (FlowFilter g) /\
  cEMAFilter.alpha (FlowFilter (loop g wire)) = cEMAFilter.alpha (FlowFilter g) /\
  length (cEMAFilter.filterData (FlowFilter (loop g wire)))
  = length (cEMAFilter.filterData (FlowFilter g)).
Proof.
  unfold loop.
  destruct (masterRead wire FLOWTEX_ADDR 0 (I2CFrame g) 0 sizeof_tI2CTable)
    as [buf [|]]; [destruct (decode buf) as [|d]|]; try done.
  destruct (flow_process (d_flow d) (d_range d)) as [fl fv].
  cbn [FlowFilter]. apply filter_preserves.
Qed.

(** The program never calls [config]: however many cycles run and whatever
    the bus delivers, [FlowFilter] keeps the default order 5 and
    [alpha = 0.5], and its ten stages. *)
Theorem run_keeps_default_filter (ws : list (list Z)) :
  cEMAFilter.order (FlowFilter (run startup ws)) = EMA_DEFAULT_ORDER /\
  cEMAFilter.alpha (FlowFilter (run startup ws)) = EMA_DEFAULT_ALPHA /\
  length (cEMAFilter.filterData (FlowFilter (run startup ws))) = 10%nat.
Proof.
  assert (H : forall g,
             cEMAFilter.order (FlowFilter (run g ws))
             = cEMAFilter.order (FlowFilter g) /\
             cEMAFilter.alpha (FlowFilter (run g ws))
             = cEMAFilter.alpha (FlowFilter g) /\
             length (cEMAFilter.filterData (FlowFilter (run g ws)))
             = length (cEMAFilter.filterData (FlowFilter g))).
  { induction ws as [|w ws IH]; intros g; [done|].
    rewrite run_cons. destruct (IH (loop g w)) as (-> & -> & ->).
    apply loop_filter_configuration. }
  destruct (H startup) as (-> & -> & ->). done.
Qed.
